(** * GameMapPixiComponent: the tile-map view of glowrift-duskhall

    A shallow embedding of the component class [GameMapPixiComponent]
    (selector [app-game-map-pixi]) and of the interfaces it uses
    ([camera.ts], [sprite.ts], [texture.ts]).  Line numbers are those of
    the component's source file.

    Conventions of the embedding.
    - A JavaScript [number] that holds a pixel coordinate, a zoom factor
      or a size is an exact rational ([Q]); [a / 0] never arises on a
      zoom level the component can reach (it stays in [1/2, 1]).  The
      binary64 behaviour of the zoom update is treated separately in
      [Module Binary64], on primitive floats, and the wheel handler as
      a whole in [Module Double], on rationals rounded to the nearest
      double after each operation.
    - Tile coordinates are integers ([Z]); a template literal prints them
      in decimal.
    - Objects of the rendering library (containers) live in a store and
      the component holds references to them, so that two fields may
      name the same object.  A reference the store has no entry for
      reads as a container nobody touched yet.
    - Imported helpers are black boxes: they are the fields of
      [Helpers.t], and every statement holds for all of them.
    - Calls that leave the component (rendering library, DOM, logger) are
      appended to a trace, oldest first; evaluations that only return a
      value ([map()], [isAtNode], [getBoundingClientRect]) are not. *)

From Stdlib Require Import QArith Qminmax Qabs Qpower Qround Lqa ZArith Lia
  Floats Ascii String.
From stdpp Require Import base option list gmap strings pretty.

Set Default Proof Using "Type".

(** ** Numbers *)

(** [a < b] on numbers, as a test. *)
Definition Qltb (a b : Q) : bool := negb (Qle_bool b a).

(** [a === b] on numbers. *)
Definition Qeqb (a b : Q) : bool := Qeq_bool a b.

(** ** Interfaces *)

(** [camera.ts] *)
Module CameraState.
Record t := mk { x : Q; y : Q }.
End CameraState.

Module DragState.
Record t := mk {
  isDragging : bool;
  lastPointerPosition : Q * Q;
  accumulatedDrag : Q * Q;
}.
End DragState.

Module CameraBounds.
Record t := mk { maxX : Q; maxY : Q }.
End CameraBounds.

(** Objects of the rendering library and of the game state that the
    component only passes around are handles. *)
Definition Texture := nat.
Definition Sprite := nat.
Definition Application := nat.
Definition ResizeObserver := nat.
Definition WorldLocation := nat.

(** [sprite.ts] *)
Module NodeSpriteData.
Record t := mk {
  terrain : Sprite;
  object : option Sprite;
  claimIndicator : option Sprite;
}.
End NodeSpriteData.

Abbreviation NodeSprites := (gmap string NodeSpriteData.t).

(** [texture.ts] *)
Module Tile.
Record t := mk { x : Q; y : Q; width : Q; height : Q }.
End Tile.

Abbreviation TextureAtlas := (gmap string Tile.t).
Abbreviation LoadedTextures := (gmap string Texture).

(** ** The rendering library *)

(** A point of the rendering library ([position], [scale]). *)
Module Point.
Record t := mk { x : Q; y : Q }.
(** [point.set(x, y)]; the second argument defaults to the first. *)
Definition set (x : Q) (y : option Q) : t := mk x (default x y).
End Point.

Module Container.
Record t := mk {
  position : Point.t;
  scale : Point.t;
  children : list Sprite;
  cullable : bool;
}.
Definition set_position (p : Point.t) (c : t) : t :=
  mk p (scale c) (children c) (cullable c).
Definition set_scale (p : Point.t) (c : t) : t :=
  mk (position c) p (children c) (cullable c).
Definition set_cullable (b : bool) (c : t) : t :=
  mk (position c) (scale c) (children c) b.
Definition set_children (l : list Sprite) (c : t) : t :=
  mk (position c) (scale c) l (cullable c).
(** [container.removeChildren()] *)
Definition removeChildren (c : t) : t :=
  mk (position c) (scale c) [] (cullable c).

(** A container nobody touched yet: at the origin, unscaled, empty. *)
Definition fresh : t := mk (Point.mk 0 0) (Point.mk 1 1) [] false.
End Container.

Global Instance Container_inhabited : Inhabited Container.t :=
  populate Container.fresh.

(** A reference to a container. *)
Abbreviation ContainerRef := nat.

(** ** The world outside the component *)

Module WorldSize.
Record t := mk { width : Q; height : Q }.
End WorldSize.

Module GameState.
Record t := mk { world : WorldSize.t; camera : CameraState.t }.
End GameState.

Module MapTileData.
Record t := mk { x : Z; y : Z; nodeData : WorldLocation }.
End MapTileData.

Module MapGridData.
Record t := mk { tiles : list (list MapTileData.t) }.
End MapGridData.

Module HostElement.
Record t := mk { clientWidth : Q; clientHeight : Q }.
End HostElement.

Module DOMRect.
Record t := mk { left : Q; top : Q }.
End DOMRect.

Module WheelEvent.
Record t := mk { deltaY : Q; clientX : Q; clientY : Q }.
End WheelEvent.

(** The outcome of a call that may throw, or of a promise that may
    reject. *)
Inductive Result (A : Type) : Type :=
| Ok (a : A)
| Throw (error : string).
Arguments Ok {A} a.
Arguments Throw {A} error.

(** The calls the trace records: those on the rendering library, on the
    DOM event and listeners, on the texture and content helpers and on
    the logger.  Evaluations that only return a value are not recorded:
    the signals [map()], [nodeWidth()] and [nodeHeight()] (and with them
    [generateMapGrid]), [isAtNode] and [getBoundingClientRect]. *)
Inductive Action : Type :=
| ActInitializePixiApp (width height : option Q)
| ActCreateGameMapContainers (app : Application)
| ActSetupResponsiveCanvas (app : Application) (observer : ResizeObserver)
| ActSetupMapDragging (app : Application) (containers : list ContainerRef)
      (viewportWidth viewportHeight : Q)
| ActAddWheelListener (app : Application)
| ActPreventDefault
| ActArtAtlases
| ActLoadGameMapTextures
| ActCreateClaimIndicatorTextures
| ActLoggerError (message : string) (error : string)
| ActRemoveChildren (container : ContainerRef)
| ActCreateNodeSprites (x y : Z)
| ActCreatePlayerIndicator (x y : Z)
| ActDisconnect (observer : ResizeObserver)
| ActDestroy (app : Application).

Module World.
Record t := mk {
  containers : gmap ContainerRef Container.t;
  gamestate : GameState.t;
  windowWidthTiles : Q;
  windowHeightTiles : Q;
  nativeElement : option HostElement.t;
  boundingClientRect : DOMRect.t;
  trace : list Action;
}.
Definition set_containers (h : gmap ContainerRef Container.t) (w : t) : t :=
  mk h (gamestate w) (windowWidthTiles w) (windowHeightTiles w)
       (nativeElement w) (boundingClientRect w) (trace w).
Definition set_trace (tr : list Action) (w : t) : t :=
  mk (containers w) (gamestate w) (windowWidthTiles w) (windowHeightTiles w)
       (nativeElement w) (boundingClientRect w) tr.
Definition set_gamestate (g : GameState.t) (w : t) : t :=
  mk (containers w) g (windowWidthTiles w) (windowHeightTiles w)
       (nativeElement w) (boundingClientRect w) (trace w).
Definition set_window (tw th : Q) (w : t) : t :=
  mk (containers w) (gamestate w) tw th
       (nativeElement w) (boundingClientRect w) (trace w).
Definition set_boundingClientRect (r : DOMRect.t) (w : t) : t :=
  mk (containers w) (gamestate w) (windowWidthTiles w) (windowHeightTiles w)
       (nativeElement w) r (trace w).
(** The container behind a reference. *)
Definition container (w : t) (r : ContainerRef) : Container.t :=
  containers w !!! r.
(** Mutate the container behind a reference. *)
Definition update (r : ContainerRef) (f : Container.t -> Container.t) (w : t) : t :=
  set_containers (<[r := f (container w r)]> (containers w)) w.
(** Record a call. *)
Definition call (a : Action) (w : t) : t := set_trace (trace w ++ [a]) w.
End World.

(** ** Imported helpers

    [../../helpers], [ContentService] and [LoggerService] are outside
    the component.  A helper that mutates the container it is given
    returns the container's new state.  The click callback handed to
    [createNodeSprites] only runs on a later pointer event and is left
    out. *)
Module Helpers.
Record t := mk {
  generateMapGrid : Q -> Q -> Q -> Q -> Q -> Q -> MapGridData.t;
  createNodeSprites :
    Z -> Z -> WorldLocation -> LoadedTextures -> LoadedTextures ->
    Container.t -> option Texture -> option Texture ->
    option NodeSpriteData.t * Container.t;
  createPlayerIndicator : Z -> Z -> Container.t -> Container.t;
  isAtNode : WorldLocation -> bool;
  initializePixiApp :
    option HostElement.t -> option Q -> option Q -> Result Application;
  createGameMapContainers : Application -> ContainerRef * ContainerRef;
  setupResponsiveCanvas : Application -> option HostElement.t -> ResizeObserver;
  loadGameMapTextures :
    option TextureAtlas -> option TextureAtlas ->
    Result (LoadedTextures * LoadedTextures);
  createClaimIndicatorTextures : Result (Texture * Texture);
  artAtlases : Result (gmap string TextureAtlas);
}.
End Helpers.

(** ** The component *)
Module GameMapPixiComponent.

(** The private fields, lines 48 to 60. *)
Record t := mk {
  app : option Application;
  mapContainer : option ContainerRef;
  terrainTextures : LoadedTextures;
  objectTextures : LoadedTextures;
  checkTexture : option Texture;
  xTexture : option Texture;
  nodeSprites : NodeSprites;
  playerIndicatorContainer : option ContainerRef;
  resizeObserver : option ResizeObserver;
  zoomLevel : Q;
}.

Definition minZoom : Q := (1 # 2)%Q.
Definition maxZoom : Q := 1%Q.

(** The fields as the class initialisers leave them. *)
Definition initial : t :=
  mk None None ∅ ∅ None None ∅ None None 1%Q.

Definition set_app (v : option Application) (c : t) : t :=
  mk v (mapContainer c) (terrainTextures c) (objectTextures c) (checkTexture c)
     (xTexture c) (nodeSprites c) (playerIndicatorContainer c) (resizeObserver c)
     (zoomLevel c).
Definition set_mapContainer (v : option ContainerRef) (c : t) : t :=
  mk (app c) v (terrainTextures c) (objectTextures c) (checkTexture c)
     (xTexture c) (nodeSprites c) (playerIndicatorContainer c) (resizeObserver c)
     (zoomLevel c).
Definition set_terrainTextures (v : LoadedTextures) (c : t) : t :=
  mk (app c) (mapContainer c) v (objectTextures c) (checkTexture c)
     (xTexture c) (nodeSprites c) (playerIndicatorContainer c) (resizeObserver c)
     (zoomLevel c).
Definition set_objectTextures (v : LoadedTextures) (c : t) : t :=
  mk (app c) (mapContainer c) (terrainTextures c) v (checkTexture c)
     (xTexture c) (nodeSprites c) (playerIndicatorContainer c) (resizeObserver c)
     (zoomLevel c).
Definition set_checkTexture (v : option Texture) (c : t) : t :=
  mk (app c) (mapContainer c) (terrainTextures c) (objectTextures c) v
     (xTexture c) (nodeSprites c) (playerIndicatorContainer c) (resizeObserver c)
     (zoomLevel c).
Definition set_xTexture (v : option Texture) (c : t) : t :=
  mk (app c) (mapContainer c) (terrainTextures c) (objectTextures c) (checkTexture c)
     v (nodeSprites c) (playerIndicatorContainer c) (resizeObserver c)
     (zoomLevel c).
Definition set_nodeSprites (v : NodeSprites) (c : t) : t :=
  mk (app c) (mapContainer c) (terrainTextures c) (objectTextures c) (checkTexture c)
     (xTexture c) v (playerIndicatorContainer c) (resizeObserver c)
     (zoomLevel c).
Definition set_playerIndicatorContainer (v : option ContainerRef) (c : t) : t :=
  mk (app c) (mapContainer c) (terrainTextures c) (objectTextures c) (checkTexture c)
     (xTexture c) (nodeSprites c) v (resizeObserver c)
     (zoomLevel c).
Definition set_resizeObserver (v : option ResizeObserver) (c : t) : t :=
  mk (app c) (mapContainer c) (terrainTextures c) (objectTextures c) (checkTexture c)
     (xTexture c) (nodeSprites c) (playerIndicatorContainer c) v
     (zoomLevel c).
Definition set_zoomLevel (v : Q) (c : t) : t :=
  mk (app c) (mapContainer c) (terrainTextures c) (objectTextures c) (checkTexture c)
     (xTexture c) (nodeSprites c) (playerIndicatorContainer c) (resizeObserver c)
     v.

(** The references a component holds. *)
Definition handles (c : t) :=
  (app c, mapContainer c, playerIndicatorContainer c, resizeObserver c).

(** A method runs on the component and the world around it. *)
Definition State : Type := t * World.t.

Section Methods.
Variable H : Helpers.t.
Local Open Scope Q_scope.

(** Lines 62 to 67. *)
Definition nodeWidth (w : World.t) : Q :=
  Qmin (WorldSize.width (GameState.world (World.gamestate w)))
       (World.windowWidthTiles w + 1).
Definition nodeHeight (w : World.t) : Q :=
  Qmin (WorldSize.height (GameState.world (World.gamestate w)))
       (World.windowHeightTiles w + 1).

(** Line 68. *)
Definition camera (w : World.t) : CameraState.t :=
  GameState.camera (World.gamestate w).

(** Lines 69 to 83. *)
Definition map (w : World.t) : MapGridData.t :=
  let camera := camera w in
  let width := nodeWidth w in
  let height := nodeHeight w in
  let world := GameState.world (World.gamestate w) in
  Helpers.generateMapGrid H
    (CameraState.x camera) (CameraState.y camera)
    width height
    (WorldSize.width world) (WorldSize.height world).

(** The template literal of line 216. *)
Definition nodeKey (x y : Z) : string := pretty x +:+ "-" +:+ pretty y.

(** Lines 213 to 232. *)
Definition createNodeSprites (x y : Z) (nodeData : WorldLocation) (s : State) : State :=
  let '(c, w) := s in
  match mapContainer c with
  | None => s
  | Some rm =>
      let '(spriteData, container) :=
        Helpers.createNodeSprites H x y nodeData
          (terrainTextures c) (objectTextures c) (World.container w rm)
          (checkTexture c) (xTexture c) in
      let w := World.call (ActCreateNodeSprites x y)
                 (World.update rm (fun _ => container) w) in
      match spriteData with
      | Some d => (set_nodeSprites (<[nodeKey x y := d]> (nodeSprites c)) c, w)
      | None => (c, w)
      end
  end.

(** The value of [spriteData] on line 217 for a tile met in state [s]. *)
Definition spriteData (tile : MapTileData.t) (s : State) : option NodeSpriteData.t :=
  let '(c, w) := s in
  match mapContainer c with
  | None => None
  | Some rm =>
      (Helpers.createNodeSprites H
         (MapTileData.x tile) (MapTileData.y tile) (MapTileData.nodeData tile)
         (terrainTextures c) (objectTextures c) (World.container w rm)
         (checkTexture c) (xTexture c)).1
  end.

(** The tiles [createNodeSprites] is called on from state [s], in order,
    each with what sprite creation returned for it. *)
Fixpoint spriteLog (tiles : list MapTileData.t) (s : State)
    : list (MapTileData.t * option NodeSpriteData.t) :=
  match tiles with
  | [] => []
  | tile :: tiles =>
      (tile, spriteData tile s)
      :: spriteLog tiles
           (createNodeSprites (MapTileData.x tile) (MapTileData.y tile)
              (MapTileData.nodeData tile) s)
  end.

(** [mapData.forEach((row) => row.forEach(f))] *)
Definition forEachTile (f : MapTileData.t -> State -> State)
    (mapData : list (list MapTileData.t)) (s : State) : State :=
  foldl (fun s row => foldl (fun s tile => f tile s) s row) s mapData.

(** Lines 234 to 249. *)
Definition updatePlayerIndicators (mapData : list (list MapTileData.t)) (s : State) : State :=
  let '(c, w) := s in
  match playerIndicatorContainer c, app c with
  | Some rp, Some _ =>
      forEachTile
        (fun tile '(c, w) =>
           let x := MapTileData.x tile in
           let y := MapTileData.y tile in
           if negb (Helpers.isAtNode H (MapTileData.nodeData tile)) then (c, w)
           else (c, World.call (ActCreatePlayerIndicator x y)
                      (World.update rp (Helpers.createPlayerIndicator H x y) w)))
        mapData s
  | _, _ => s
  end.

(** The state after lines 200 to 202. *)
Definition clearMap (rm rp : ContainerRef) (s : State) : State :=
  let '(c, w) := s in
  let w := World.call (ActRemoveChildren rm)
             (World.update rm Container.removeChildren w) in
  let w := World.call (ActRemoveChildren rp)
             (World.update rp Container.removeChildren w) in
  (set_nodeSprites ∅ c, w).

(** Lines 197 to 211. *)
Definition updateMap (mapData : list (list MapTileData.t)) (s : State) : State :=
  let '(c, w) := s in
  match mapContainer c, playerIndicatorContainer c with
  | Some rm, Some rp =>
      let w := World.call (ActRemoveChildren rm)
                 (World.update rm Container.removeChildren w) in
      let w := World.call (ActRemoveChildren rp)
                 (World.update rp Container.removeChildren w) in
      let c := set_nodeSprites ∅ c in
      let s := forEachTile
                 (fun tile =>
                    createNodeSprites (MapTileData.x tile) (MapTileData.y tile)
                      (MapTileData.nodeData tile))
                 mapData (c, w) in
      updatePlayerIndicators mapData s
  | _, _ => s
  end.

(** The callback of the effect the constructor registers, lines 86 to 91. *)
Definition effect (s : State) : State :=
  let '(c, w) := s in
  let mapData := map w in
  match app c, mapContainer c with
  | Some _, Some _ => updateMap (MapGridData.tiles mapData) s
  | _, _ => s
  end.

(** Lines 142 to 177. *)
Definition zoomDelta (event : WheelEvent.t) : Q :=
  if Qltb (WheelEvent.deltaY event) 0 then 1 # 10 else - (1 # 10).

(** The zoom level [onWheel] computes on lines 149 and 150. *)
Definition clampedZoom (event : WheelEvent.t) (oldZoom : Q) : Q :=
  Qmax minZoom (Qmin maxZoom (oldZoom + zoomDelta event)).

Definition onWheel (event : WheelEvent.t) (s : State) : State :=
  let '(c, w) := s in
  match mapContainer c, app c with
  | Some rm, Some _ =>
      let w := World.call ActPreventDefault w in
      let oldZoom := zoomLevel c in
      let newZoom := oldZoom + zoomDelta event in
      let newZoom := Qmax minZoom (Qmin maxZoom newZoom) in
      if Qeqb newZoom oldZoom then (c, w)
      else
        let c := set_zoomLevel newZoom c in
        let rect := World.boundingClientRect w in
        let mouseX := WheelEvent.clientX event - DOMRect.left rect in
        let mouseY := WheelEvent.clientY event - DOMRect.top rect in
        let mapPos := Container.position (World.container w rm) in
        let worldX := (mouseX - Point.x mapPos) / oldZoom in
        let worldY := (mouseY - Point.y mapPos) / oldZoom in
        let w := World.update rm
                   (Container.set_scale (Point.set (zoomLevel c) None)) w in
        let w := match playerIndicatorContainer c with
                 | Some rp =>
                     World.update rp
                       (Container.set_scale (Point.set (zoomLevel c) None)) w
                 | None => w
                 end in
        let w := World.update rm
                   (Container.set_position
                      (Point.set (mouseX - worldX * zoomLevel c)
                                 (Some (mouseY - worldY * zoomLevel c)))) w in
        let w := match playerIndicatorContainer c with
                 | Some rp =>
                     let p := Container.position (World.container w rm) in
                     World.update rp
                       (Container.set_position
                          (Point.set (Point.x p) (Some (Point.y p)))) w
                 | None => w
                 end in
        (c, w)
  | _, _ => s
  end.

(** Lines 126 to 140. *)
Definition setupMouseDragging (s : State) : State :=
  let '(c, w) := s in
  match app c, mapContainer c, playerIndicatorContainer c with
  | Some a, Some rm, Some rp =>
      let w := World.call
                 (ActSetupMapDragging a [rm; rp] (nodeWidth w) (nodeHeight w)) w in
      let w := World.call (ActAddWheelListener a) w in
      (c, w)
  | _, _, _ => s
  end.

(** [initPixi], lines 105 to 124, up to its [await]: the call of
    [initializePixiApp] and the promise it returns. *)
Definition initPixi_call (s : State) : State * Result Application :=
  let '(c, w) := s in
  let nativeElement := World.nativeElement w in
  let width := HostElement.clientWidth <$> nativeElement in
  let height := HostElement.clientHeight <$> nativeElement in
  ((c, World.call (ActInitializePixiApp width height) w),
   Helpers.initializePixiApp H nativeElement width height).

(** [initPixi] after its [await], with the application the promise
    resolved to. *)
Definition initPixi_resume (a : Application) (s : State) : State :=
  let '(c, w) := s in
  let c := set_app (Some a) c in
  let w := World.call (ActCreateGameMapContainers a) w in
  let containers := Helpers.createGameMapContainers H a in
  let c := set_mapContainer (Some containers.1) c in
  let c := set_playerIndicatorContainer (Some containers.2) c in
  let w := World.update containers.1 (Container.set_cullable true) w in
  let observer := Helpers.setupResponsiveCanvas H a (World.nativeElement w) in
  let w := World.call (ActSetupResponsiveCanvas a observer) w in
  let c := set_resizeObserver (Some observer) c in
  setupMouseDragging (c, w).

Definition logFailedToLoad (error : string) (s : State) : State :=
  let '(c, w) := s in
  (c, World.call (ActLoggerError "Failed to load textures:" error) w).

(** [loadTextures], lines 179 to 195, up to its [await]: either the
    promise of [loadGameMapTextures], or nothing to wait for because
    [artAtlases()] threw and the [catch] block already ran. *)
Definition loadTextures_call (s : State)
    : State * option (Result (LoadedTextures * LoadedTextures)) :=
  let '(c, w) := s in
  let w := World.call ActArtAtlases w in
  match Helpers.artAtlases H with
  | Throw error => (logFailedToLoad error (c, w), None)
  | Ok artAtlases =>
      let w := World.call ActLoadGameMapTextures w in
      ((c, w),
       Some (Helpers.loadGameMapTextures H
               (artAtlases !! "world-terrain") (artAtlases !! "world-object")))
  end.

(** [loadTextures] after its [await], with the outcome of the promise. *)
Definition loadTextures_resume
    (outcome : Result (LoadedTextures * LoadedTextures)) (s : State) : State :=
  let '(c, w) := s in
  match outcome with
  | Throw error => logFailedToLoad error (c, w)
  | Ok textures =>
      let c := set_terrainTextures textures.1 c in
      let c := set_objectTextures textures.2 c in
      let w := World.call ActCreateClaimIndicatorTextures w in
      match Helpers.createClaimIndicatorTextures H with
      | Throw error => logFailedToLoad error (c, w)
      | Ok claimTextures =>
          let c := set_checkTexture (Some claimTextures.1) c in
          let c := set_xTexture (Some claimTextures.2) c in
          (c, w)
      end
  end.

(** [loadTextures] from its call to the settling of its promise. *)
Definition loadTextures (s : State) : State :=
  let '(s, pending) := loadTextures_call s in
  match pending with
  | Some outcome => loadTextures_resume outcome s
  | None => s
  end.

(** [ngOnInit], lines 94 to 98, when no other handler runs while it
    awaits: [inr] when [initPixi] rejects, [inl] when it returns. *)
Definition ngOnInit (s : State) : State + State :=
  let '(s, promise) := initPixi_call s in
  match promise with
  | Throw _ => inr s
  | Ok a =>
      let s := initPixi_resume a s in
      let s := loadTextures s in
      inl (updateMap (MapGridData.tiles (map s.2)) s)
  end.

(** Lines 100 to 103. *)
Definition ngOnDestroy (s : State) : State :=
  let '(c, w) := s in
  let w := match resizeObserver c with
           | Some observer => World.call (ActDisconnect observer) w
           | None => w
           end in
  let w := match app c with
           | Some a => World.call (ActDestroy a) w
           | None => w
           end in
  (c, w).

End Methods.

(** Reading a key back: the text before the first dash that is not the
    first character, and the text after it. *)
Fixpoint splitAtDash (s : string) : string * string :=
  match s with
  | EmptyString => (EmptyString, EmptyString)
  | String c s =>
      if decide (c = "-"%char) then (EmptyString, s)
      else let '(a, b) := splitAtDash s in (String c a, b)
  end.

Definition keyParts (k : string) : string * string :=
  match k with
  | EmptyString => (EmptyString, EmptyString)
  | String c s => let '(a, b) := splitAtDash s in (String c a, b)
  end.

Fixpoint dashFree (s : string) : Prop :=
  match s with
  | EmptyString => True
  | String c s => c ≠ "-"%char /\ dashFree s
  end.

(** The registry entries a log of sprite creations stands for, in order. *)
Definition entries (log : list (MapTileData.t * option NodeSpriteData.t))
    : list (string * NodeSpriteData.t) :=
  omap (λ '(tile, spriteData),
          (λ d, (nodeKey (MapTileData.x tile) (MapTileData.y tile), d))
            <$> spriteData) log.

(** The registry that holds, for each key, the entry created last. *)
Definition registryOf (log : list (MapTileData.t * option NodeSpriteData.t))
    : NodeSprites :=
  list_to_map (reverse (entries log)).

End GameMapPixiComponent.

(** ** The life of a mounted component

    The browser runs one handler at a time.  [ngOnInit] (lines 94 to 98)
    gives control back at each [await]; until its promise settles, other
    handlers may run: the effect of the constructor, the wheel listener,
    [ngOnDestroy], and code outside the component that changes the game
    state, the window or the containers. *)
Module Lifecycle.

(** Where [ngOnInit] stands.  A phase that waits for a helper's promise
    carries the outcome the promise will settle to. *)
Inductive Phase : Type :=
  | Constructed
  | AwaitInitializePixiApp (promise : Result Application)
  | AwaitInitPixi
  | AwaitLoadGameMapTextures (promise : Result (LoadedTextures * LoadedTextures))
  | AwaitLoadTextures
  | Mounted
  | Rejected.

Record System := mkSystem {
  state : GameMapPixiComponent.State;
  phase : Phase;
  destroyed : bool;
}.

Definition component (sys : System) : GameMapPixiComponent.t := (state sys).1.
Definition world (sys : System) : World.t := (state sys).2.
Definition trace (sys : System) : list Action := World.trace (world sys).

Inductive Event : Type :=
  | EvNgOnInit
  | EvResume
  | EvEffect
  | EvWheel (event : WheelEvent.t)
  | EvNgOnDestroy
  | EvGamestate (g : GameState.t)
  | EvWindow (widthTiles heightTiles : Q)
  | EvLayout (rect : DOMRect.t)
  | EvContainers (containers : gmap ContainerRef Container.t).

Definition isAddWheelListener (a : Action) : bool :=
  match a with ActAddWheelListener _ => true | _ => false end.

(** The canvas has a wheel listener once line 139 ran. *)
Definition wheelListening (tr : list Action) : bool :=
  existsb isAddWheelListener tr.

Section Steps.
Variable H : Helpers.t.

(** A freshly constructed component in world [w]; the trace starts
    here. *)
Definition construct (w : World.t) : System :=
  mkSystem (GameMapPixiComponent.initial, World.set_trace [] w) Constructed false.

(** [ngOnInit] from its current [await] to the next one. *)
Definition resume (sys : System) : option System :=
  let s := state sys in
  match phase sys with
  | AwaitInitializePixiApp (Ok a) =>
      Some (mkSystem (GameMapPixiComponent.initPixi_resume H a s)
              AwaitInitPixi (destroyed sys))
  | AwaitInitializePixiApp (Throw _) =>
      Some (mkSystem s Rejected (destroyed sys))
  | AwaitInitPixi =>
      let '(s, pending) := GameMapPixiComponent.loadTextures_call H s in
      Some (mkSystem s
              match pending with
              | Some promise => AwaitLoadGameMapTextures promise
              | None => AwaitLoadTextures
              end
              (destroyed sys))
  | AwaitLoadGameMapTextures promise =>
      Some (mkSystem (GameMapPixiComponent.loadTextures_resume H promise s)
              AwaitLoadTextures (destroyed sys))
  | AwaitLoadTextures =>
      Some (mkSystem
              (GameMapPixiComponent.updateMap H
                 (MapGridData.tiles (GameMapPixiComponent.map H s.2)) s)
              Mounted (destroyed sys))
  | Constructed | Mounted | Rejected => None
  end.

(** One handler runs.  [None]: the event cannot happen in this state.
    After [ngOnDestroy] the effect is gone and the canvas is out of the
    page; a pending [ngOnInit] still resumes. *)
Definition step (sys : System) (e : Event) : option System :=
  let s := state sys in
  match e with
  | EvNgOnInit =>
      match phase sys, destroyed sys with
      | Constructed, false =>
          let '(s, promise) := GameMapPixiComponent.initPixi_call H s in
          Some (mkSystem s (AwaitInitializePixiApp promise) false)
      | _, _ => None
      end
  | EvResume => resume sys
  | EvEffect =>
      if destroyed sys then None
      else Some (mkSystem (GameMapPixiComponent.effect H s) (phase sys) false)
  | EvWheel event =>
      if destroyed sys then None
      else if wheelListening (trace sys)
      then Some (mkSystem (GameMapPixiComponent.onWheel event s) (phase sys) false)
      else None
  | EvNgOnDestroy =>
      if destroyed sys then None
      else Some (mkSystem (GameMapPixiComponent.ngOnDestroy s) (phase sys) true)
  | EvGamestate g =>
      Some (mkSystem (s.1, World.set_gamestate g s.2) (phase sys) (destroyed sys))
  | EvWindow tw th =>
      Some (mkSystem (s.1, World.set_window tw th s.2) (phase sys) (destroyed sys))
  | EvLayout rect =>
      Some (mkSystem (s.1, World.set_boundingClientRect rect s.2)
              (phase sys) (destroyed sys))
  | EvContainers h =>
      Some (mkSystem (s.1, World.set_containers h s.2) (phase sys) (destroyed sys))
  end.

(** Run a list of events, oldest first. *)
Fixpoint run (sys : System) (events : list Event) : option System :=
  match events with
  | [] => Some sys
  | e :: events =>
      match step sys e with
      | Some sys' => run sys' events
      | None => None
      end
  end.

(** The systems a component constructed in world [w0] can be in. *)
Inductive reachable (w0 : World.t) : System -> Prop :=
  | reachable_construct : reachable w0 (construct w0)
  | reachable_step sys e sys' :
      reachable w0 sys -> step sys e = Some sys' -> reachable w0 sys'.

End Steps.

(** *** Reading a trace *)

(** A call that draws or removes tiles. *)
Definition isRender (a : Action) : bool :=
  match a with
  | ActRemoveChildren _ | ActCreateNodeSprites _ _
  | ActCreatePlayerIndicator _ _ => true
  | _ => false
  end.

(** The resize observers that observe, after the calls of a trace. *)
Definition observe (connected : list ResizeObserver) (a : Action)
    : list ResizeObserver :=
  match a with
  | ActSetupResponsiveCanvas _ observer => connected ++ [observer]
  | ActDisconnect observer => filter (λ o, o ≠ observer) connected
  | _ => connected
  end.

Definition connectedObservers (tr : list Action) : list ResizeObserver :=
  foldl observe [] tr.

(** The rendering surfaces that are alive, after the calls of a trace:
    [createGameMapContainers] is the first call on a new surface. *)
Definition surface (alive : list Application) (a : Action) : list Application :=
  match a with
  | ActCreateGameMapContainers app => alive ++ [app]
  | ActDestroy app => filter (λ o, o ≠ app) alive
  | _ => alive
  end.

Definition liveSurfaces (tr : list Action) : list Application :=
  foldl surface [] tr.

Definition isTextureOutcome (a : Action) : bool :=
  match a with
  | ActLoggerError _ _ | ActCreateClaimIndicatorTextures => true
  | _ => false
  end.

(** [loadTextures] ran to its end: it logged its error, or it got past
    the assignments of lines 186 and 187. *)
Definition texturesSettled (tr : list Action) : bool :=
  existsb isTextureOutcome tr.

(** What a call belongs to. *)
Inductive Kind : Type :=
  | KInit | KSetup | KTexture | KRender | KWheel | KTeardown.

Definition kind (a : Action) : Kind :=
  match a with
  | ActInitializePixiApp _ _ => KInit
  | ActCreateGameMapContainers _ | ActSetupResponsiveCanvas _ _
  | ActSetupMapDragging _ _ _ _ | ActAddWheelListener _ => KSetup
  | ActArtAtlases | ActLoadGameMapTextures | ActCreateClaimIndicatorTextures
  | ActLoggerError _ _ => KTexture
  | ActRemoveChildren _ | ActCreateNodeSprites _ _
  | ActCreatePlayerIndicator _ _ => KRender
  | ActPreventDefault => KWheel
  | ActDisconnect _ | ActDestroy _ => KTeardown
  end.

Global Instance Kind_eq_dec : EqDecision Kind.
Proof. solve_decision. Defined.

(** Calls that neither set up nor tear down leave observers and
    surfaces as they are. *)
Definition quiet (a : Action) : bool :=
  match kind a with KSetup | KTeardown => false | _ => true end.

(** The kind of the calls a handler makes. *)
Definition stepKind (p : Phase) (e : Event) : option Kind :=
  match e with
  | EvNgOnInit => Some KInit
  | EvResume =>
      match p with
      | AwaitInitializePixiApp _ => Some KSetup
      | AwaitInitPixi | AwaitLoadGameMapTextures _ => Some KTexture
      | AwaitLoadTextures => Some KRender
      | Constructed | Mounted | Rejected => None
      end
  | EvEffect => Some KRender
  | EvWheel _ => Some KWheel
  | EvNgOnDestroy => Some KTeardown
  | EvGamestate _ | EvWindow _ _ | EvLayout _ | EvContainers _ => None
  end.

(** [initPixi] has not run past its [await]. *)
Definition early (p : Phase) : bool :=
  match p with
  | Constructed | AwaitInitializePixiApp _ | Rejected => true
  | AwaitInitPixi | AwaitLoadGameMapTextures _ | AwaitLoadTextures | Mounted => false
  end.

(** [loadTextures] has returned. *)
Definition texturesDone (p : Phase) : bool :=
  match p with
  | AwaitLoadTextures | Mounted => true
  | _ => false
  end.

(** The call of line 106 for a host element. *)
Definition initCall (nativeElement : option HostElement.t) : Action :=
  ActInitializePixiApp (HostElement.clientWidth <$> nativeElement)
                       (HostElement.clientHeight <$> nativeElement).

(** What holds of every system a component can be in. *)
Record Invariant (sys : System) : Prop := mkInvariant {
  inv_zoom :
    (GameMapPixiComponent.minZoom
       <= GameMapPixiComponent.zoomLevel (component sys)
       <= GameMapPixiComponent.maxZoom)%Q;
  inv_early :
    early (phase sys) = true ->
    component sys = GameMapPixiComponent.initial /\
    match phase sys with
    | Constructed => trace sys = []
    | _ => exists nativeElement, trace sys = [initCall nativeElement]
    end;
  inv_late :
    early (phase sys) = false ->
    exists a rm rp o,
      GameMapPixiComponent.app (component sys) = Some a /\
      GameMapPixiComponent.mapContainer (component sys) = Some rm /\
      GameMapPixiComponent.playerIndicatorContainer (component sys) = Some rp /\
      GameMapPixiComponent.resizeObserver (component sys) = Some o /\
      wheelListening (trace sys) = true /\
      (destroyed sys = false ->
       connectedObservers (trace sys) = [o] /\ liveSurfaces (trace sys) = [a]);
  inv_textures :
    texturesDone (phase sys) = true -> texturesSettled (trace sys) = true;
}.

(** [s'] comes from [s] by drawing: only the sprite registry of the
    component may differ, and the trace grew by drawing calls. *)
Definition draws (s s' : GameMapPixiComponent.State) : Prop :=
  s'.1 = GameMapPixiComponent.set_nodeSprites
           (GameMapPixiComponent.nodeSprites s'.1) s.1 /\
  exists new, World.trace s'.2 = World.trace s.2 ++ new /\
              forallb isRender new = true.

(** [s'] comes from [s] by calls of kind [k] that keep the references
    and the zoom level. *)
Definition keeps (k : Kind) (s s' : GameMapPixiComponent.State) : Prop :=
  GameMapPixiComponent.handles s'.1 = GameMapPixiComponent.handles s.1 /\
  GameMapPixiComponent.zoomLevel s'.1 = GameMapPixiComponent.zoomLevel s.1 /\
  exists new, World.trace s'.2 = World.trace s.2 ++ new /\
              Forall (λ a, kind a = k) new.

(** The two places [updateMap] is called from: the effect, behind its
    guard of line 88, and [ngOnInit] on line 97. *)
Definition callsUpdateMap (sys : System) : Prop :=
  (is_Some (GameMapPixiComponent.app (component sys)) /\
   is_Some (GameMapPixiComponent.mapContainer (component sys))) \/
  phase sys = AwaitLoadTextures.

End Lifecycle.

(** ** The zoom level in binary64

    Lines 147 to 152 on IEEE doubles, the numbers the browser computes
    with. *)
Module Binary64.
Local Open Scope float_scope.

(** [Math.max] and [Math.min] of two doubles: NaN if either is NaN, and
    the negative zero is below the positive one. *)
Definition Math_max (a b : float) : float :=
  if is_nan a || is_nan b then nan
  else if a <? b then b
  else if b <? a then a
  else if get_sign a then b else a.

Definition Math_min (a b : float) : float :=
  if is_nan a || is_nan b then nan
  else if a <? b then a
  else if b <? a then b
  else if get_sign a then a else b.

Definition minZoom : float := 0x1p-1.
Definition maxZoom : float := 0x1p+0.

(** The doubles nearest to 0.1 and to -0.1. *)
Definition zoomDelta (deltaY : float) : float :=
  if deltaY <? 0 then 0x1.999999999999ap-4 else -0x1.999999999999ap-4.

(** The zoom level after a wheel event that got past line 143. *)
Definition zoomAfterWheel (zoomLevel deltaY : float) : float :=
  let oldZoom := zoomLevel in
  let newZoom := zoomLevel + zoomDelta deltaY in
  let newZoom := Math_max minZoom (Math_min maxZoom newZoom) in
  if newZoom =? oldZoom then zoomLevel else newZoom.

(** The zoom levels wheel events lead to from the initial 1.0. *)
Inductive reached : float -> Prop :=
  | reached_initial : reached 0x1p+0
  | reached_wheel zoomLevel deltaY :
      reached zoomLevel -> reached (zoomAfterWheel zoomLevel deltaY).

(** 1.0, 0.9, 0.8, 0.7000000000000001, 0.6000000000000001,
    0.5000000000000001, 0.5, 0.6, 0.7, 0.7999999999999999,
    0.8999999999999999, 0.9999999999999999. *)
Definition levels : list float :=
  [0x1p+0; 0x1.ccccccccccccdp-1; 0x1.999999999999ap-1; 0x1.6666666666667p-1;
   0x1.3333333333334p-1; 0x1.0000000000001p-1; 0x1p-1; 0x1.3333333333333p-1;
   0x1.6666666666666p-1; 0x1.9999999999999p-1; 0x1.cccccccccccccp-1;
   0x1.fffffffffffffp-1].

Definition inRange (z : float) : bool := (minZoom <=? z) && (z <=? maxZoom).

(** Lines 161 and 170 on doubles, for one coordinate. *)
Definition worldPoint (mouse offset zoom : float) : float :=
  (mouse - offset) / zoom.

Definition newOffset (mouse offset oldZoom newZoom : float) : float :=
  mouse - worldPoint mouse offset oldZoom * newZoom.

End Binary64.

(** ** The wheel handler in binary64

    A double is the rational it stands for, and an arithmetic operation
    gives the exact result rounded to the nearest double, ties to even,
    as the language defines it.  Infinities, NaN and the sign of zero
    are left out: the values of a wheel event stay far below 2^1024. *)
Module Double.
Import GameMapPixiComponent.
Local Open Scope Q_scope.

(** The integer nearest to [r]; of two that are equally near, the even
    one. *)
Definition nearestEven (r : Q) : Z :=
  let f := Qfloor r in
  match Qcompare (r - inject_Z f) (1 # 2) with
  | Lt => f
  | Gt => (f + 1)%Z
  | Eq => if Z.even f then f else (f + 1)%Z
  end.

(** The exponent of the last of the 53 bits of a normal [x], for [x]
    other than 0: the [e] with 2^52 <= |x| / 2^e < 2^53. *)
Definition normalExponent (x : Q) : Z :=
  let e := (Z.log2 (Z.abs (Qnum x)) - Z.log2 (Zpos (Qden x)) - 52)%Z in
  if Qle_bool (inject_Z (2 ^ 52)) (Qabs x * 2 ^ (- e)) then e else (e - 1)%Z.

(** The same, with the subnormal doubles: all multiples of 2^-1074. *)
Definition exponent (x : Q) : Z := Z.max (normalExponent x) (-1074).

(** [x] rounded to the nearest double, for |x| < 2^1024. *)
Definition round (x : Q) : Q :=
  if Qeq_bool x 0 then 0
  else inject_Z (nearestEven (x * 2 ^ (- exponent x))) * 2 ^ exponent x.

(** [x + y], [x - y], [x * y] and [x / y] on doubles. *)
Definition add (x y : Q) : Q := round (x + y).
Definition sub (x y : Q) : Q := round (x - y).
Definition mul (x y : Q) : Q := round (x * y).
Definition div (x y : Q) : Q := round (x / y).

(** Half of the smallest positive double, and the unit roundoff. *)
Definition tiny : Q := 2 ^ (-1075).
Definition unitRoundoff : Q := 2 ^ (-53).

(** Line 148; the literal [0.1] is the double nearest to 1/10. *)
Definition zoomDelta (event : WheelEvent.t) : Q :=
  if Qltb (WheelEvent.deltaY event) 0 then round (1 # 10) else - round (1 # 10).

(** The zoom level of lines 149 and 150. *)
Definition clampedZoom (event : WheelEvent.t) (oldZoom : Q) : Q :=
  Qmax minZoom (Qmin maxZoom (add oldZoom (zoomDelta event))).

(** Lines 161 and 170 for one coordinate: the world point under the
    cursor, and the offset that puts it under the cursor again. *)
Definition worldPoint (mouse offset zoom : Q) : Q :=
  div (sub mouse offset) zoom.

Definition newOffset (mouse offset oldZoom newZoom : Q) : Q :=
  sub mouse (mul (worldPoint mouse offset oldZoom) newZoom).

(** Lines 142 to 177. *)
Definition onWheel (event : WheelEvent.t) (s : State) : State :=
  let '(c, w) := s in
  match mapContainer c, app c with
  | Some rm, Some _ =>
      let w := World.call ActPreventDefault w in
      let oldZoom := zoomLevel c in
      let newZoom := add oldZoom (zoomDelta event) in
      let newZoom := Qmax minZoom (Qmin maxZoom newZoom) in
      if Qeqb newZoom oldZoom then (c, w)
      else
        let c := set_zoomLevel newZoom c in
        let rect := World.boundingClientRect w in
        let mouseX := sub (WheelEvent.clientX event) (DOMRect.left rect) in
        let mouseY := sub (WheelEvent.clientY event) (DOMRect.top rect) in
        let mapPos := Container.position (World.container w rm) in
        let worldX := div (sub mouseX (Point.x mapPos)) oldZoom in
        let worldY := div (sub mouseY (Point.y mapPos)) oldZoom in
        let w := World.update rm
                   (Container.set_scale (Point.set (zoomLevel c) None)) w in
        let w := match playerIndicatorContainer c with
                 | Some rp =>
                     World.update rp
                       (Container.set_scale (Point.set (zoomLevel c) None)) w
                 | None => w
                 end in
        let w := World.update rm
                   (Container.set_position
                      (Point.set (sub mouseX (mul worldX (zoomLevel c)))
                                 (Some (sub mouseY (mul worldY (zoomLevel c))))))
                   w in
        let w := match playerIndicatorContainer c with
                 | Some rp =>
                     let p := Container.position (World.container w rm) in
                     World.update rp
                       (Container.set_position
                          (Point.set (Point.x p) (Some (Point.y p)))) w
                 | None => w
                 end in
        (c, w)
  | _, _ => s
  end.

(** The rational a primitive float stands for, if it is finite. *)
Definition ofFloat (f : float) : option Q :=
  match Prim2SF f with
  | S754_zero _ => Some 0
  | S754_finite negative m e =>
      Some ((if negative then - inject_Z (Zpos m) else inject_Z (Zpos m)) * 2 ^ e)
  | _ => None
  end.

Definition toQ (f : float) : Q := default 0 (ofFloat f).

(** A primitive float is finite and stands for [x]. *)
Definition agrees (f : float) (x : Q) : bool :=
  match ofFloat f with
  | Some y => Qeq_bool y x
  | None => false
  end.

(** Doubles to try the operations on: zero, the zoom levels' neighbours,
    pixel coordinates, a far offset, and subnormal numbers. *)
Definition samples : list float :=
  [0x0p+0; 0x1p+0; 0x1p-1; 0x1.999999999999ap-4; 0x1.ccccccccccccdp-1;
   0x1.3333333333333p-1; 0x1.8p+1; 0x1.b8p+6; 0x1.3fcp+10; -0x1.4p+9;
   -0x1.1988p+16; 0x1.5555555555555p-2; -0x1.1c37937e08p+53;
   0x1p-1074; 0x1.8p-1060; 0x1.fffffffffffffp-1023]%float.

(** The four operations of the primitive floats and of this module give
    the same number on [a] and [b]; a quotient is left out when [b] is 0
    or the quotient is 2^1023 or more. *)
Definition operationsAgree (a b : float) : bool :=
  agrees (a + b)%float (add (toQ a) (toQ b))
  && agrees (a - b)%float (sub (toQ a) (toQ b))
  && agrees (a * b)%float (mul (toQ a) (toQ b))
  && (Qeq_bool (toQ b) 0
      || Qle_bool (2 ^ 1023) (Qabs (toQ a / toQ b))
      || agrees (a / b)%float (div (toQ a) (toQ b))).

(** So do the zoom step of [Binary64] and the one of this module, from
    zoom level [z] with this [deltaY]. *)
Definition zoomAgrees (z deltaY : float) : bool :=
  agrees (Binary64.zoomAfterWheel z deltaY)
    (clampedZoom (WheelEvent.mk (toQ deltaY) 0 0) (toQ z)).

(** And the world point before and after a zoom step. *)
Definition worldPointAgrees (mouse offset oldZoom newZoom : float) : bool :=
  agrees (Binary64.worldPoint mouse offset oldZoom)
    (worldPoint (toQ mouse) (toQ offset) (toQ oldZoom))
  && agrees
       (Binary64.worldPoint mouse
          (Binary64.newOffset mouse offset oldZoom newZoom) newZoom)
       (worldPoint (toQ mouse)
          (newOffset (toQ mouse) (toQ offset) (toQ oldZoom) (toQ newZoom))
          (toQ newZoom)).

End Double.

(** ** A small world to run the component in *)
Module Example.
Import GameMapPixiComponent Lifecycle.

Definition tiles : list (list MapTileData.t) :=
  [[MapTileData.mk 0 0 7; MapTileData.mk 1 0 8];
   [MapTileData.mk 0 (-1) 9]].

(** Helpers that draw a tile when the terrain atlas has "grass", mark the
    player on location 7, and whose indicator textures are given. *)
Definition helpers (claimTextures : Result (Texture * Texture)) : Helpers.t :=
  Helpers.mk
    (λ _ _ _ _ _ _, MapGridData.mk tiles)
    (λ x y nodeData terrainTextures _ container _ _,
       match terrainTextures !! "grass" with
       | Some texture =>
           (Some (NodeSpriteData.mk (100 + nodeData) None None),
            Container.set_children
              (Container.children container ++ [100 + nodeData]) container)
       | None => (None, container)
       end)
    (λ _ _ container,
       Container.set_children (Container.children container ++ [99]) container)
    (λ nodeData, Nat.eqb nodeData 7)
    (λ _ _ _, Ok 1)
    (λ _, (10, 11))
    (λ _ _, 5)
    (λ _ _, Ok ({["grass" := 3]}, {["tree" := 4]}))
    claimTextures
    (Ok ∅).

Definition world : World.t :=
  World.mk ∅
    (GameState.mk (WorldSize.mk 100 80) (CameraState.mk 0 0))
    20 15
    (Some (HostElement.mk 800 600))
    (DOMRect.mk 10 20)
    [].

(** The system after the events, or the constructed one if they cannot
    happen. *)
Definition after (H : Helpers.t) (events : list Event) : System :=
  default (construct world) (run H (construct world) events).

Definition mount : list Event :=
  [EvNgOnInit; EvResume; EvResume; EvResume; EvResume].

Definition wheelOut : WheelEvent.t := WheelEvent.mk 3 110 220.
Definition wheelIn : WheelEvent.t := WheelEvent.mk (-3) 110 220.

(** Helpers whose indicator textures cannot be made. *)
Definition noCanvas : Helpers.t := helpers (Throw "no canvas").

(** The system when [ngOnInit] is about to call [updateMap], and when it
    has returned. *)
Definition texturesLoaded : System :=
  after noCanvas [EvNgOnInit; EvResume; EvResume; EvResume].
Definition mounted : System := after noCanvas mount.
Definition mountedComponent : GameMapPixiComponent.t := component mounted.
Definition mountedWorld : World.t := Lifecycle.world mounted.

End Example.

(** ** What a run of [updateMap] calls and leaves *)
Module Redraw.
Section WithHelpers.
Variable H : Helpers.t.

(** The tiles [isAtNode] holds of, in the order of the loops. *)
Definition atNode (tiles : list MapTileData.t) : list MapTileData.t :=
  List.filter (λ tile, Helpers.isAtNode H (MapTileData.nodeData tile)) tiles.

(** The calls the loop of lines 204 to 208 makes. *)
Definition spriteCalls (tiles : list MapTileData.t) : list Action :=
  (λ tile, ActCreateNodeSprites (MapTileData.x tile) (MapTileData.y tile))
    <$> tiles.

(** The calls the loop of lines 237 to 248 makes. *)
Definition indicatorCalls (tiles : list MapTileData.t) : list Action :=
  (λ tile, ActCreatePlayerIndicator (MapTileData.x tile) (MapTileData.y tile))
    <$> atNode tiles.

(** A container after the helper [createNodeSprites] ran on it for each
    tile in turn, with the textures of component [c]. *)
Definition withSprites (c : GameMapPixiComponent.t) (container : Container.t)
    (tiles : list MapTileData.t) : Container.t :=
  foldl (λ container tile,
           (Helpers.createNodeSprites H
              (MapTileData.x tile) (MapTileData.y tile)
              (MapTileData.nodeData tile)
              (GameMapPixiComponent.terrainTextures c)
              (GameMapPixiComponent.objectTextures c) container
              (GameMapPixiComponent.checkTexture c)
              (GameMapPixiComponent.xTexture c)).2)
        container tiles.

(** A container after [createPlayerIndicator] ran on it for each tile
    the player stands on. *)
Definition withIndicators (container : Container.t)
    (tiles : list MapTileData.t) : Container.t :=
  foldl (λ container tile,
           Helpers.createPlayerIndicator H
             (MapTileData.x tile) (MapTileData.y tile) container)
        container (atNode tiles).

End WithHelpers.

(** The coordinates of a tile. *)
Definition coordinates (tile : MapTileData.t) : Z * Z :=
  (MapTileData.x tile, MapTileData.y tile).

End Redraw.

(** ** Readings of a system used by the lifecycle properties *)
Module Census.
Import GameMapPixiComponent Lifecycle.

(** The calls of one kind in a trace, in order. *)
Definition ofKind (k : Kind) (tr : list Action) : list Action :=
  List.filter (λ a, bool_decide (kind a = k)) tr.

(** The four texture fields of the component. *)
Definition textureFields (c : t) :=
  (terrainTextures c, objectTextures c, checkTexture c, xTexture c).

(** The calls of [initPixi] past its [await]. *)
Definition setupCalls (a : Application) (observer : ResizeObserver)
    (rm rp : ContainerRef) (viewportWidth viewportHeight : Q) : list Action :=
  [ActCreateGameMapContainers a; ActSetupResponsiveCanvas a observer;
   ActSetupMapDragging a [rm; rp] viewportWidth viewportHeight;
   ActAddWheelListener a].

Definition failed (error : string) : Action :=
  ActLoggerError "Failed to load textures:" error.

(** The calls of [loadTextures] while [loadGameMapTextures] is pending. *)
Definition loadingCalls : list Action := [ActArtAtlases; ActLoadGameMapTextures].

(** The calls of a [loadTextures] that has returned: the four ways
    through its [try] block. *)
Definition loadedCalls (calls : list Action) : Prop :=
  (exists error, calls = [ActArtAtlases; failed error]) \/
  (exists error, calls = [ActArtAtlases; ActLoadGameMapTextures; failed error]) \/
  calls = [ActArtAtlases; ActLoadGameMapTextures;
           ActCreateClaimIndicatorTextures] \/
  (exists error, calls = [ActArtAtlases; ActLoadGameMapTextures;
                          ActCreateClaimIndicatorTextures; failed error]).

(** What holds of the calls of a system past [initPixi]. *)
Record Late (sys : System) : Prop := mkLate {
  late_init : exists nativeElement,
    ofKind KInit (trace sys) = [initCall nativeElement];
  late_setup : exists a observer rm rp viewportWidth viewportHeight,
    ofKind KSetup (trace sys)
    = setupCalls a observer rm rp viewportWidth viewportHeight;
  late_textures :
    match phase sys with
    | AwaitInitPixi => ofKind KTexture (trace sys) = []
    | AwaitLoadGameMapTextures _ => ofKind KTexture (trace sys) = loadingCalls
    | _ => loadedCalls (ofKind KTexture (trace sys))
    end;
  late_teardown :
    if destroyed sys
    then ofKind KTeardown (trace sys) = [] \/
         exists observer a,
           ofKind KTeardown (trace sys) = [ActDisconnect observer; ActDestroy a]
    else ofKind KTeardown (trace sys) = [];
}.

End Census.

(** ** What [loadTextures] leaves, read off the helpers *)
Module Outcome.
Import GameMapPixiComponent Lifecycle.
Section WithHelpers.
Variable H : Helpers.t.

(** The promise of line 182, if [artAtlases()] on line 181 returns. *)
Definition loadPromise : option (Result (LoadedTextures * LoadedTextures)) :=
  match Helpers.artAtlases H with
  | Throw _ => None
  | Ok artAtlases =>
      Some (Helpers.loadGameMapTextures H
              (artAtlases !! "world-terrain") (artAtlases !! "world-object"))
  end.

(** The texture fields as the class initialisers leave them. *)
Definition noTextures
    : LoadedTextures * LoadedTextures * option Texture * option Texture :=
  (∅, ∅, None, None).

(** The texture fields once [loadTextures] has returned on a component
    that had none. *)
Definition loadedFields
    : LoadedTextures * LoadedTextures * option Texture * option Texture :=
  match loadPromise with
  | Some (Ok textures) =>
      match Helpers.createClaimIndicatorTextures H with
      | Ok claimTextures =>
          (textures.1, textures.2, Some claimTextures.1, Some claimTextures.2)
      | Throw _ => (textures.1, textures.2, None, None)
      end
  | _ => noTextures
  end.

End WithHelpers.
End Outcome.

(** ** Wheel events in a row *)
Module Notches.



End Notches.

(** ** A browser without a rendering surface *)
Module NoSurface.
Import GameMapPixiComponent Lifecycle.

(** The helpers of the small world, with an [initializePixiApp] that
    rejects. *)
Definition helpers : Helpers.t :=
  let h := Example.noCanvas in
  Helpers.mk
    (Helpers.generateMapGrid h) (Helpers.createNodeSprites h)
    (Helpers.createPlayerIndicator h) (Helpers.isAtNode h)
    (λ _ _ _, Throw "no WebGL")
    (Helpers.createGameMapContainers h) (Helpers.setupResponsiveCanvas h)
    (Helpers.loadGameMapTextures h) (Helpers.createClaimIndicatorTextures h)
    (Helpers.artAtlases h).

(** The system once [initPixi] has rejected. *)
Definition rejected : System :=
  Example.after helpers [EvNgOnInit; EvResume].

End NoSurface.

(** * Properties *)

(** ** Reading and writing the container store *)
Section Store.
Implicit Types (w : World.t) (r : ContainerRef) (f : Container.t -> Container.t).

Lemma container_update_eq r f w :
  World.container (World.update r f w) r = f (World.container w r).
Proof. unfold World.container, World.update. cbn. apply lookup_total_insert_eq. Qed.

Lemma container_update_ne r r' f w :
  r ≠ r' -> World.container (World.update r f w) r' = World.container w r'.
Proof.
  intros Hne. unfold World.container, World.update. cbn.
  by apply lookup_total_insert_ne.
Qed.

Lemma container_call a w r :
  World.container (World.call a w) r = World.container w r.
Proof. reflexivity. Qed.

Lemma update_update r f g w :
  World.update r f (World.update r g w) = World.update r (f ∘ g) w.
Proof.
  unfold World.update, World.container, World.set_containers. cbn.
  by rewrite lookup_total_insert_eq, insert_insert_eq.
Qed.

Lemma update_comm r r' f g w :
  r ≠ r' ->
  World.update r f (World.update r' g w) = World.update r' g (World.update r f w).
Proof.
  intros Hne. unfold World.update, World.container, World.set_containers. cbn.
  rewrite !lookup_total_insert_ne by done. f_equal.
  by apply insert_insert_ne.
Qed.

Lemma update_call r f a w :
  World.update r f (World.call a w) = World.call a (World.update r f w).
Proof. reflexivity. Qed.

Lemma update_ext r f g w :
  f (World.container w r) = g (World.container w r) ->
  World.update r f w = World.update r g w.
Proof. intros Heq. unfold World.update. by rewrite Heq. Qed.

Lemma trace_update r f w : World.trace (World.update r f w) = World.trace w.
Proof. reflexivity. Qed.

Lemma trace_call a w : World.trace (World.call a w) = World.trace w ++ [a].
Proof. reflexivity. Qed.

End Store.

(** Read a container back after a sequence of updates. *)
Ltac store :=
  repeat first
    [ rewrite container_update_eq
    | rewrite container_update_ne by done
    | rewrite container_call
    | progress cbn [Container.position Container.scale Container.children
                    Container.cullable Container.set_position
                    Container.set_scale Container.set_cullable
                    Container.removeChildren
                    Point.set Point.x Point.y default from_option id] ].

(** ** The wheel handler *)
Section Wheel.
Import GameMapPixiComponent.
Local Open Scope Q_scope.

Lemma clampedZoom_range event z :
  minZoom <= clampedZoom event z <= maxZoom.
Proof.
  unfold clampedZoom, minZoom, maxZoom. split.
  - apply Q.le_max_l.
  - apply Q.max_lub; [lra | apply Q.le_min_l].
Qed.

Lemma clampedZoom_nonzero event z : ~ clampedZoom event z == 0.
Proof.
  pose proof (clampedZoom_range event z) as [Hlo _].
  unfold minZoom in Hlo. lra.
Qed.

(** Undoing the re-anchoring gives the world point back. *)
Lemma reanchor (mouse worldPoint newZoom : Q) :
  ~ newZoom == 0 ->
  (mouse - (mouse - worldPoint * newZoom)) / newZoom == worldPoint.
Proof. intros Hnz. field. exact Hnz. Qed.

(** What a wheel event that got past both early returns did. *)
Lemma onWheel_zoomed event c w rm a :
  mapContainer c = Some rm -> app c = Some a ->
  Qeqb (clampedZoom event (zoomLevel c)) (zoomLevel c) = false ->
  let newZoom := clampedZoom event (zoomLevel c) in
  let rect := World.boundingClientRect w in
  let mouseX := WheelEvent.clientX event - DOMRect.left rect in
  let mouseY := WheelEvent.clientY event - DOMRect.top rect in
  let offset := Container.position (World.container w rm) in
  let worldX := (mouseX - Point.x offset) / zoomLevel c in
  let worldY := (mouseY - Point.y offset) / zoomLevel c in
  let anchored := Point.mk (mouseX - worldX * newZoom) (mouseY - worldY * newZoom) in
  let s' := onWheel event (c, w) in
  s'.1 = set_zoomLevel newZoom c /\
  Container.position (World.container s'.2 rm) = anchored /\
  Container.scale (World.container s'.2 rm) = Point.mk newZoom newZoom /\
  (forall rp, playerIndicatorContainer c = Some rp ->
     Container.position (World.container s'.2 rp) = anchored /\
     Container.scale (World.container s'.2 rp) = Point.mk newZoom newZoom) /\
  World.trace s'.2 = World.trace w ++ [ActPreventDefault].
Proof.
  intros Hm Ha Hne. cbn zeta. unfold onWheel. rewrite Hm, Ha.
  fold (clampedZoom event (zoomLevel c)). rewrite Hne.
  cbn [set_zoomLevel playerIndicatorContainer zoomLevel fst snd].
  cbn [World.call World.set_trace World.boundingClientRect].
  destruct (playerIndicatorContainer c) as [rp|] eqn:Hp;
    [destruct (decide (rp = rm)) as [->|Hrp]|];
    (split; [reflexivity|]); (split; [|split; [|split; [|reflexivity]]]);
    try (intros ? [= <-]; split); try (intros ? [=]); by store.
Qed.

(** A wheel event changes the zoom level only past both early returns. *)
Lemma onWheel_changes_zoom event c w :
  zoomLevel (onWheel event (c, w)).1 ≠ zoomLevel c ->
  exists rm a, mapContainer c = Some rm /\ app c = Some a /\
    Qeqb (clampedZoom event (zoomLevel c)) (zoomLevel c) = false.
Proof.
  unfold onWheel. destruct (mapContainer c) as [rm|]; [|done].
  destruct (app c) as [a|]; [|done].
  fold (clampedZoom event (zoomLevel c)).
  destruct (Qeqb _ _) eqn:Heq; [done|]. intros _. by exists rm, a.
Qed.

(** C1.  A wheel event that changes the zoom level takes the world point
    under the cursor as (cursor - offset) / zoom, with the offset and the
    zoom from before the event, and moves the map container to
    cursor - worldPoint * newZoom, in x and in y. *)
Theorem onWheel_anchors_offset (event : WheelEvent.t) (c : t) (w : World.t) :
  let c' := (onWheel event (c, w)).1 in
  let w' := (onWheel event (c, w)).2 in
  zoomLevel c' ≠ zoomLevel c ->
  exists rm, mapContainer c = Some rm /\
    let rect := World.boundingClientRect w in
    let mouseX := WheelEvent.clientX event - DOMRect.left rect in
    let mouseY := WheelEvent.clientY event - DOMRect.top rect in
    let currentOffset := Container.position (World.container w rm) in
    let currentZoom := zoomLevel c in
    let newZoom := zoomLevel c' in
    let worldX := (mouseX - Point.x currentOffset) / currentZoom in
    let worldY := (mouseY - Point.y currentOffset) / currentZoom in
    Container.position (World.container w' rm)
    = Point.mk (mouseX - worldX * newZoom) (mouseY - worldY * newZoom).
Proof.
  intros c' w' Hchg.
  destruct (onWheel_changes_zoom _ _ _ Hchg) as (rm & a & Hm & Ha & Hne).
  exists rm. split; [done|].
  destruct (onWheel_zoomed event c w rm a Hm Ha Hne) as (Hc & Hpos & _).
  subst c' w'. rewrite Hpos, Hc. reflexivity.
Qed.

(** In exact arithmetic the world point under the cursor is kept as it
    is: after a wheel event that changes the zoom level, the point
    computed from the new offset and the new zoom is the one computed
    from the old offset and the old zoom.  (On doubles see
    [onWheel_world_point_tolerance].) *)
Theorem onWheel_keeps_world_point (event : WheelEvent.t) (c : t) (w : World.t) :
  let c' := (onWheel event (c, w)).1 in
  let w' := (onWheel event (c, w)).2 in
  zoomLevel c' ≠ zoomLevel c ->
  exists rm, mapContainer c = Some rm /\
    let rect := World.boundingClientRect w in
    let mouseX := WheelEvent.clientX event - DOMRect.left rect in
    let mouseY := WheelEvent.clientY event - DOMRect.top rect in
    let oldOffset := Container.position (World.container w rm) in
    let newOffset := Container.position (World.container w' rm) in
    (mouseX - Point.x newOffset) / zoomLevel c'
      == (mouseX - Point.x oldOffset) / zoomLevel c /\
    (mouseY - Point.y newOffset) / zoomLevel c'
      == (mouseY - Point.y oldOffset) / zoomLevel c.
Proof.
  intros c' w' Hchg.
  destruct (onWheel_changes_zoom _ _ _ Hchg) as (rm & a & Hm & Ha & Hne).
  exists rm. split; [done|].
  destruct (onWheel_zoomed event c w rm a Hm Ha Hne) as (Hc & Hpos & _).
  subst c' w'. rewrite Hpos, Hc. cbn [zoomLevel set_zoomLevel Point.x Point.y].
  pose proof (clampedZoom_nonzero event (zoomLevel c)) as Hnz.
  split; apply reanchor; exact Hnz.
Qed.

(** C10.  When the clamped new zoom equals the current zoom, the wheel
    handler returns on line 151: the component (its zoom level with it)
    and every container (scale and position) are as before.  For a zoom
    level in range this is the case exactly when zooming in at [maxZoom]
    or zooming out at [minZoom]. *)
Theorem onWheel_at_limit_no_change (event : WheelEvent.t) (c : t) (w : World.t) :
  (clampedZoom event (zoomLevel c) == zoomLevel c ->
   (onWheel event (c, w)).1 = c /\
   World.containers (onWheel event (c, w)).2 = World.containers w) /\
  (minZoom <= zoomLevel c <= maxZoom ->
   (clampedZoom event (zoomLevel c) == zoomLevel c <->
    (WheelEvent.deltaY event < 0 /\ zoomLevel c == maxZoom) \/
    (~ WheelEvent.deltaY event < 0 /\ zoomLevel c == minZoom))).
Proof.
  split.
  - intros Heq. unfold onWheel.
    destruct (mapContainer c) as [rm|]; [|done].
    destruct (app c) as [a|]; [|done].
    fold (clampedZoom event (zoomLevel c)).
    unfold Qeqb. apply Qeq_bool_iff in Heq. by rewrite Heq.
  - intros [Hlo Hhi]. unfold clampedZoom, zoomDelta, Qltb, minZoom, maxZoom in *.
    destruct (Qle_bool 0 (WheelEvent.deltaY event)) eqn:Hd; cbn [negb].
    + apply Qle_bool_iff in Hd.
      destruct (Q.min_spec 1 (zoomLevel c + - (1 # 10))) as [[? ->]|[? ->]];
        destruct (Q.max_spec (1 # 2) (zoomLevel c + - (1 # 10))) as [[? Hm]|[? Hm]];
        try rewrite Hm; try lra;
        try (destruct (Q.max_spec (1 # 2) 1) as [[? ->]|[? ->]]; lra).
    + assert (WheelEvent.deltaY event < 0) as Hneg.
      { apply Qnot_le_lt. intros Hle. apply Qle_bool_iff in Hle. congruence. }
      destruct (Q.min_spec 1 (zoomLevel c + (1 # 10))) as [[? ->]|[? ->]].
      * destruct (Q.max_spec (1 # 2) 1) as [[? ->]|[? ->]]; lra.
      * destruct (Q.max_spec (1 # 2) (zoomLevel c + (1 # 10))) as [[? ->]|[? ->]]; lra.
Qed.

End Wheel.

(** ** Drawing the tiles *)
Section Drawing.
Import GameMapPixiComponent.
Variable H : Helpers.t.
Implicit Types (s : State) (c : t) (w : World.t).

Lemma draws_refl s : Lifecycle.draws s s.
Proof.
  destruct s as [[] w]. split; [reflexivity|].
  exists []. by rewrite app_nil_r.
Qed.

Lemma draws_trans s1 s2 s3 :
  Lifecycle.draws s1 s2 -> Lifecycle.draws s2 s3 -> Lifecycle.draws s1 s3.
Proof.
  intros [Hc1 (n1 & Ht1 & Hn1)] [Hc2 (n2 & Ht2 & Hn2)]. split.
  - rewrite Hc2, Hc1. reflexivity.
  - exists (n1 ++ n2). rewrite Ht2, Ht1, <- app_assoc. split; [done|].
    rewrite forallb_app, Hn1, Hn2. reflexivity.
Qed.

Lemma draws_update_call s r f a :
  Lifecycle.isRender a = true ->
  Lifecycle.draws s (s.1, World.call a (World.update r f s.2)).
Proof.
  intros Ha. destruct s as [[] w]. split; [reflexivity|].
  exists [a]. cbn. by rewrite Ha.
Qed.

Lemma forEachTile_concat (f : MapTileData.t -> State -> State) mapData s :
  forEachTile f mapData s = foldl (λ s tile, f tile s) s (concat mapData).
Proof.
  unfold forEachTile. revert s.
  induction mapData as [|row mapData IH]; intros s; [done|].
  cbn. rewrite foldl_app. apply IH.
Qed.

Lemma forEachTile_draws (f : MapTileData.t -> State -> State) mapData s :
  (forall tile s, Lifecycle.draws s (f tile s)) ->
  Lifecycle.draws s (forEachTile f mapData s).
Proof.
  intros Hf. rewrite forEachTile_concat.
  generalize (concat mapData) as tiles. intros tiles. revert s.
  induction tiles as [|tile tiles IH]; intros s; [apply draws_refl|].
  cbn. eapply draws_trans; [apply Hf | apply IH].
Qed.

Lemma createNodeSprites_draws x y nodeData s :
  Lifecycle.draws s (createNodeSprites H x y nodeData s).
Proof.
  destruct s as [c w]. unfold createNodeSprites.
  destruct (mapContainer c) as [rm|]; [|apply draws_refl].
  destruct (Helpers.createNodeSprites _ _ _ _ _ _ _ _ _) as [[d|] container].
  - destruct c. split; [reflexivity|]. exists [ActCreateNodeSprites x y]. done.
  - apply (draws_update_call (c, w)). done.
Qed.

Lemma updatePlayerIndicators_draws mapData s :
  Lifecycle.draws s (updatePlayerIndicators H mapData s).
Proof.
  destruct s as [c w]. unfold updatePlayerIndicators.
  destruct (playerIndicatorContainer c) as [rp|]; [|apply draws_refl].
  destruct (app c) as [a|]; [|apply draws_refl].
  apply forEachTile_draws. intros tile [c' w'].
  destruct (Helpers.isAtNode H _); cbn [negb]; [|apply draws_refl].
  apply (draws_update_call (c', w')). done.
Qed.

Lemma updatePlayerIndicators_nodeSprites mapData s :
  nodeSprites (updatePlayerIndicators H mapData s).1 = nodeSprites s.1.
Proof.
  destruct s as [c w]. unfold updatePlayerIndicators.
  destruct (playerIndicatorContainer c) as [rp|]; [|done].
  destruct (app c) as [a|]; [|done].
  rewrite forEachTile_concat. generalize (concat mapData) as tiles.
  intros tiles. revert w. induction tiles as [|tile tiles IH]; intros w; [done|].
  cbn. destruct (Helpers.isAtNode H _); cbn [negb]; apply IH.
Qed.

Lemma clearMap_draws rm rp s : Lifecycle.draws s (clearMap rm rp s).
Proof.
  destruct s as [[] w]. split; [reflexivity|].
  exists [ActRemoveChildren rm; ActRemoveChildren rp]. cbn.
  by rewrite <- app_assoc.
Qed.

(** [updateMap] past its guard is the clearing and the two loops. *)
Lemma updateMap_unfold mapData c w rm rp :
  mapContainer c = Some rm -> playerIndicatorContainer c = Some rp ->
  updateMap H mapData (c, w)
  = updatePlayerIndicators H mapData
      (forEachTile
         (λ tile, createNodeSprites H (MapTileData.x tile) (MapTileData.y tile)
                    (MapTileData.nodeData tile))
         mapData (clearMap rm rp (c, w))).
Proof. intros Hm Hp. unfold updateMap. by rewrite Hm, Hp. Qed.

Lemma updateMap_draws mapData s : Lifecycle.draws s (updateMap H mapData s).
Proof.
  destruct s as [c w].
  destruct (mapContainer c) as [rm|] eqn:Hm;
    [destruct (playerIndicatorContainer c) as [rp|] eqn:Hp|].
  - rewrite (updateMap_unfold _ _ _ _ _ Hm Hp).
    eapply draws_trans; [apply clearMap_draws|].
    eapply draws_trans; [|apply updatePlayerIndicators_draws].
    apply forEachTile_draws. intros. apply createNodeSprites_draws.
  - unfold updateMap. rewrite Hm, Hp. apply draws_refl.
  - unfold updateMap. rewrite Hm. apply draws_refl.
Qed.

Lemma effect_draws s : Lifecycle.draws s (effect H s).
Proof.
  destruct s as [c w]. unfold effect.
  destruct (app c); [|apply draws_refl].
  destruct (mapContainer c); [|apply draws_refl].
  apply updateMap_draws.
Qed.

Lemma registryOf_cons tile (spriteData : option NodeSpriteData.t) log (reg : NodeSprites) :
  registryOf ((tile, spriteData) :: log)
  ∪ reg
  = registryOf log
    ∪ match spriteData with
      | Some d => <[nodeKey (MapTileData.x tile) (MapTileData.y tile) := d]> reg
      | None => reg
      end.
Proof.
  unfold registryOf. destruct spriteData as [d|].
  - change (entries ((tile, Some d) :: log))
      with ((nodeKey (MapTileData.x tile) (MapTileData.y tile), d) :: entries log).
    rewrite reverse_cons, list_to_map_app.
    rewrite <- (assoc_L (∪)). f_equal.
    change (list_to_map [(?k, ?v)]) with (<[k:=v]> (∅ : NodeSprites)).
    by rewrite <- insert_union_l, (left_id_L ∅ (∪)).
  - done.
Qed.

Lemma createNodeSprites_registry tiles s :
  nodeSprites
    (foldl (λ s tile, createNodeSprites H (MapTileData.x tile) (MapTileData.y tile)
                        (MapTileData.nodeData tile) s) s tiles).1
  = registryOf (spriteLog H tiles s) ∪ nodeSprites s.1.
Proof.
  revert s. induction tiles as [|tile tiles IH]; intros [c w].
  - cbn. unfold registryOf. cbn. by rewrite (left_id_L ∅ (∪)).
  - cbn [foldl spriteLog]. rewrite IH, registryOf_cons. f_equal.
    unfold createNodeSprites, spriteData.
    destruct (mapContainer c) as [rm|]; [|done].
    destruct (Helpers.createNodeSprites _ _ _ _ _ _ _ _ _) as [[d|] container];
      done.
Qed.

(** The registry [updateMap] leaves, past its guard. *)
Lemma updateMap_registry mapData c w rm rp :
  mapContainer c = Some rm -> playerIndicatorContainer c = Some rp ->
  nodeSprites (updateMap H mapData (c, w)).1
  = registryOf (spriteLog H (concat mapData) (clearMap rm rp (c, w))).
Proof.
  intros Hm Hp. rewrite (updateMap_unfold _ _ _ _ _ Hm Hp).
  rewrite updatePlayerIndicators_nodeSprites, forEachTile_concat.
  rewrite createNodeSprites_registry. cbn. by rewrite (right_id_L ∅ (∪)).
Qed.

Lemma elem_of_entries k d log :
  (k, d) ∈ entries log <->
  exists tile, (tile, Some d) ∈ log /\
    k = nodeKey (MapTileData.x tile) (MapTileData.y tile).
Proof.
  unfold entries. rewrite list_elem_of_omap. split.
  - intros ([tile [d'|]] & Hin & Heq); cbn in Heq; [|done].
    injection Heq as <- <-. by exists tile.
  - intros (tile & Hin & ->). exists (tile, Some d). done.
Qed.

(** An entry of the registry is what sprite creation returned for a tile
    of the log with that key, and every such key has an entry. *)
Lemma registryOf_lookup log k :
  (forall d, registryOf log !! k = Some d ->
     exists tile, (tile, Some d) ∈ log /\
       k = nodeKey (MapTileData.x tile) (MapTileData.y tile)) /\
  (is_Some (registryOf log !! k) <->
   exists tile d, (tile, Some d) ∈ log /\
     k = nodeKey (MapTileData.x tile) (MapTileData.y tile)).
Proof.
  assert (forall d, registryOf log !! k = Some d ->
     exists tile, (tile, Some d) ∈ log /\
       k = nodeKey (MapTileData.x tile) (MapTileData.y tile)) as Hval.
  { intros d Hd. apply elem_of_entries.
    unfold registryOf in Hd. apply elem_of_list_to_map_2 in Hd.
    by rewrite elem_of_reverse in Hd. }
  split; [exact Hval|]. split.
  - intros [d Hd]. destruct (Hval d Hd) as (tile & ? & ?). by exists tile, d.
  - intros (tile & d & Hin & Hk).
    apply not_eq_None_Some. intros Hnone.
    unfold registryOf in Hnone. apply not_elem_of_list_to_map in Hnone.
    apply Hnone. apply list_elem_of_fmap. exists (k, d). split; [done|].
    rewrite elem_of_reverse. apply elem_of_entries. by exists tile.
Qed.

End Drawing.

(** ** Nothing of the previous map survives *)
Section Forget.
Import GameMapPixiComponent.
Variable H : Helpers.t.

Lemma removeChildren_set_children l (c : Container.t) :
  Container.removeChildren (Container.set_children l c)
  = Container.removeChildren c.
Proof. reflexivity. Qed.

Lemma clearMap_forgets (c : t) (w : World.t) rm rp reg lm lp :
  clearMap rm rp
    (set_nodeSprites reg c,
     World.update rm (Container.set_children lm)
       (World.update rp (Container.set_children lp) w))
  = clearMap rm rp (c, w).
Proof.
  unfold clearMap. f_equal. f_equal. rewrite !update_call. f_equal.
  destruct (decide (rm = rp)) as [->|Hne].
  - rewrite !update_update. by apply update_ext.
  - rewrite update_update, (update_comm rm rp), update_update by done.
    rewrite (update_ext rm _ Container.removeChildren w) by done.
    by apply update_ext.
Qed.

(** [updateMap] does not see the registry or the children left by an
    earlier call. *)
Lemma updateMap_forgets mapData (c : t) (w : World.t) rm rp reg lm lp :
  mapContainer c = Some rm -> playerIndicatorContainer c = Some rp ->
  updateMap H mapData
    (set_nodeSprites reg c,
     World.update rm (Container.set_children lm)
       (World.update rp (Container.set_children lp) w))
  = updateMap H mapData (c, w).
Proof.
  intros Hm Hp.
  rewrite (updateMap_unfold H mapData c w rm rp Hm Hp).
  rewrite (updateMap_unfold H mapData (set_nodeSprites reg c) _ rm rp Hm Hp).
  by rewrite clearMap_forgets.
Qed.

End Forget.

(** ** Tile keys *)
Section Keys.
Import GameMapPixiComponent.

Lemma pretty_N_char_no_dash n : pretty_N_char n ≠ "-"%char.
Proof. unfold pretty_N_char. by repeat case_match. Qed.

Lemma pretty_N_go_dashFree (n : N) (s : string) :
  dashFree s -> dashFree (pretty_N_go n s).
Proof.
  revert s. induction (N.lt_wf_0 n) as [n _ IH]. intros s Hs.
  destruct (decide (n = 0%N)) as [->|Hn]; [by rewrite pretty_N_go_0|].
  rewrite pretty_N_go_step by lia. apply IH.
  - apply N.div_lt; lia.
  - split; [apply pretty_N_char_no_dash | done].
Qed.

Lemma pretty_N_go_nonempty (n : N) (s : string) :
  s ≠ EmptyString -> pretty_N_go n s ≠ EmptyString.
Proof.
  revert s. induction (N.lt_wf_0 n) as [n _ IH]. intros s Hs.
  destruct (decide (n = 0%N)) as [->|Hn]; [by rewrite pretty_N_go_0|].
  rewrite pretty_N_go_step by lia. apply IH; [apply N.div_lt; lia | done].
Qed.

Lemma pretty_positive_shape (p : positive) :
  exists c d, pretty p = String c d /\ c ≠ "-"%char /\ dashFree d.
Proof.
  assert (dashFree (pretty p)) as Hfree.
  { unfold pretty, pretty_positive, pretty, pretty_N.
    rewrite decide_False by done. by apply pretty_N_go_dashFree. }
  assert (pretty p ≠ EmptyString) as Hne.
  { unfold pretty, pretty_positive, pretty, pretty_N.
    rewrite decide_False by done. rewrite pretty_N_go_step by lia.
    by apply pretty_N_go_nonempty. }
  destruct (pretty p) as [|c d]; [done|].
  destruct Hfree. by exists c, d.
Qed.

(** A printed integer is one character, a dash or not, and then no dash. *)
Lemma pretty_Z_shape (x : Z) :
  exists c d, pretty x = String c d /\ dashFree d.
Proof.
  destruct x as [|p|p].
  - by exists "0"%char, EmptyString.
  - destruct (pretty_positive_shape p) as (c & d & Hp & _ & Hd).
    exists c, d. by rewrite <- Hp.
  - destruct (pretty_positive_shape p) as (c & d & Hp & Hc & Hd).
    exists "-"%char, (String c d). split; [|done].
    change (pretty (Z.neg p)) with ("-" +:+ pretty p). by rewrite Hp.
Qed.

Lemma splitAtDash_app (d b : string) :
  dashFree d -> splitAtDash (d +:+ "-" +:+ b) = (d, b).
Proof.
  induction d as [|c d IH]; intros Hd; [done|].
  destruct Hd as [Hc Hd].
  change (String c d +:+ "-" +:+ b) with (String c (d +:+ "-" +:+ b)).
  cbn [splitAtDash]. rewrite decide_False by done.
  by rewrite (IH Hd).
Qed.

Lemma keyParts_nodeKey (x y : Z) : keyParts (nodeKey x y) = (pretty x, pretty y).
Proof.
  unfold nodeKey. destruct (pretty_Z_shape x) as (c & d & -> & Hd).
  change (String c d +:+ "-" +:+ pretty y)
    with (String c (d +:+ "-" +:+ pretty y)).
  cbn [keyParts]. by rewrite splitAtDash_app.
Qed.

(** Two tiles have the same key only if they are the same tile. *)
Lemma nodeKey_inj (x y x' y' : Z) :
  nodeKey x y = nodeKey x' y' -> x = x' /\ y = y'.
Proof.
  intros Hk. apply (f_equal keyParts) in Hk.
  rewrite !keyParts_nodeKey in Hk. injection Hk as Hx Hy.
  split; by apply (inj pretty).
Qed.

End Keys.

(** ** The life of the component *)
Section Life.
Import GameMapPixiComponent Lifecycle.
Variable H : Helpers.t.
Implicit Types (sys : System) (tr new : list Action).

Lemma isRender_kind a : isRender a = true -> kind a = KRender.
Proof. by destruct a. Qed.

Lemma forallb_isRender_kind new a :
  forallb isRender new = true -> a ∈ new -> kind a = KRender.
Proof.
  intros Hall Hin. apply isRender_kind.
  rewrite forallb_forall in Hall. apply Hall. by apply list_elem_of_In.
Qed.

Lemma connectedObservers_quiet tr new :
  forallb quiet new = true ->
  connectedObservers (tr ++ new) = connectedObservers tr.
Proof.
  unfold connectedObservers. rewrite foldl_app.
  generalize (foldl observe [] tr) as acc.
  induction new as [|a new IH]; intros acc Hq; [done|].
  cbn in Hq. apply andb_prop in Hq as [Ha Hq]. cbn.
  assert (observe acc a = acc) as -> by (by destruct a). by apply IH.
Qed.

Lemma liveSurfaces_quiet tr new :
  forallb quiet new = true -> liveSurfaces (tr ++ new) = liveSurfaces tr.
Proof.
  unfold liveSurfaces. rewrite foldl_app.
  generalize (foldl surface [] tr) as acc.
  induction new as [|a new IH]; intros acc Hq; [done|].
  cbn in Hq. apply andb_prop in Hq as [Ha Hq]. cbn.
  assert (surface acc a = acc) as -> by (by destruct a). by apply IH.
Qed.

Lemma wheelListening_app tr new :
  wheelListening tr = true -> wheelListening (tr ++ new) = true.
Proof. unfold wheelListening. intros Htr. by rewrite existsb_app, Htr. Qed.

Lemma texturesSettled_app tr new :
  texturesSettled tr = true -> texturesSettled (tr ++ new) = true.
Proof. unfold texturesSettled. intros Htr. by rewrite existsb_app, Htr. Qed.

Lemma forallb_isRender_quiet new :
  forallb isRender new = true -> forallb quiet new = true.
Proof.
  rewrite !forallb_forall. intros Hall a Hin.
  specialize (Hall a Hin). by destruct a.
Qed.

Lemma draws_handles s s' :
  draws s s' -> handles s'.1 = handles s.1 /\ zoomLevel s'.1 = zoomLevel s.1.
Proof. intros [-> _]. done. Qed.

Lemma construct_invariant w0 : Invariant (construct w0).
Proof.
  split; cbn; done.
Qed.

(** A handler that runs once [initPixi] is over keeps the invariant if it
    keeps the references, the zoom range and, unless it tears down, makes
    only quiet calls. *)
Lemma invariant_late sys c' w' p' d' new :
  Invariant sys ->
  early (phase sys) = false -> early p' = false ->
  handles c' = handles (component sys) ->
  (minZoom <= zoomLevel c' <= maxZoom)%Q ->
  World.trace w' = trace sys ++ new ->
  (d' = false -> destroyed sys = false /\ forallb quiet new = true) ->
  (texturesDone p' = true -> texturesSettled (trace sys ++ new) = true) ->
  Invariant (mkSystem (c', w') p' d').
Proof.
  intros [Hz He Hl Ht] Hlate Hp' Hh Hz' Htr Hq Hs.
  destruct (Hl Hlate) as (a & rm & rp & o & Ha & Hm & Hrp & Ho & Hw & Hd).
  unfold handles in Hh. rewrite Ha, Hm, Hrp, Ho in Hh.
  injection Hh as Ha' Hm' Hrp' Ho'.
  split; unfold Lifecycle.trace, component, world;
    cbn [state phase destroyed fst snd].
  - done.
  - rewrite Hp'. done.
  - intros _. exists a, rm, rp, o. rewrite Htr.
    do 4 (split; [done|]). split; [by apply wheelListening_app|].
    intros Hd'. destruct (Hq Hd') as [Hd0 Hqn].
    rewrite connectedObservers_quiet, liveSurfaces_quiet by done. by apply Hd.
  - rewrite Htr. done.
Qed.

(** *** What each handler calls and keeps *)

Lemma draws_keeps s s' : draws s s' -> keeps KRender s s'.
Proof.
  intros Hd. destruct (draws_handles _ _ Hd) as [Hh Hz].
  destruct Hd as [_ (new & Htr & Hall)].
  split; [done|]. split; [done|]. exists new. split; [done|].
  apply Forall_forall. intros a Ha. by apply (forallb_isRender_kind new).
Qed.

Ltac calls l :=
  exists l; split; [cbn; by rewrite <- ?app_assoc, ?app_nil_r | repeat constructor].

Ltac settled :=
  unfold texturesSettled; cbn; rewrite ?existsb_app; cbn;
  by rewrite ?orb_true_r.

Lemma loadTextures_call_keeps s :
  keeps KTexture s (loadTextures_call H s).1 /\
  ((loadTextures_call H s).2 = None ->
   texturesSettled (World.trace (loadTextures_call H s).1.2) = true).
Proof.
  destruct s as [c w]. unfold loadTextures_call.
  destruct (Helpers.artAtlases H) as [artAtlases|error].
  - split; [|done]. do 2 (split; [done|]).
    calls [ActArtAtlases; ActLoadGameMapTextures].
  - split; [|intros _; settled]. do 2 (split; [done|]).
    calls [ActArtAtlases; ActLoggerError "Failed to load textures:" error].
Qed.

Lemma loadTextures_resume_keeps outcome s :
  keeps KTexture s (loadTextures_resume H outcome s) /\
  texturesSettled (World.trace (loadTextures_resume H outcome s).2) = true.
Proof.
  destruct s as [c w]. unfold loadTextures_resume.
  destruct outcome as [textures|error];
    [destruct (Helpers.createClaimIndicatorTextures H) as [claimTextures|error]|];
    (split; [|settled]); do 2 (split; [done|]).
  - calls [ActCreateClaimIndicatorTextures].
  - calls [ActCreateClaimIndicatorTextures;
           ActLoggerError "Failed to load textures:" error].
  - calls [ActLoggerError "Failed to load textures:" error].
Qed.

(** The wheel handler keeps the references and the zoom range, and calls
    [preventDefault] at most. *)
Lemma onWheel_keeps event s :
  handles (onWheel event s).1 = handles s.1 /\
  ((minZoom <= zoomLevel s.1 <= maxZoom)%Q ->
   (minZoom <= zoomLevel (onWheel event s).1 <= maxZoom)%Q) /\
  exists new, World.trace (onWheel event s).2 = World.trace s.2 ++ new /\
              Forall (λ a, kind a = KWheel) new.
Proof.
  destruct s as [c w]. cbn [fst snd].
  destruct (mapContainer c) as [rm|] eqn:Hm;
    [destruct (app c) as [a|] eqn:Ha|].
  - destruct (Qeqb (clampedZoom event (zoomLevel c)) (zoomLevel c)) eqn:Heq.
    + unfold onWheel. rewrite Hm, Ha.
      fold (clampedZoom event (zoomLevel c)). rewrite Heq. cbn.
      do 2 (split; [done|]). calls [ActPreventDefault].
    + destruct (onWheel_zoomed event c w rm a Hm Ha Heq)
        as (Hc & _ & _ & _ & Htr).
      rewrite Hc, Htr. split; [done|]. split.
      * intros _. apply clampedZoom_range.
      * exists [ActPreventDefault]. split; [done|]. repeat constructor.
  - unfold onWheel. rewrite Hm, Ha. do 2 (split; [done|]).
    calls (@nil Action).
  - unfold onWheel. rewrite Hm. do 2 (split; [done|]).
    calls (@nil Action).
Qed.

(** *** The invariant *)

Lemma invariant_ext sys sys' :
  component sys' = component sys -> trace sys' = trace sys ->
  phase sys' = phase sys ->
  (destroyed sys' = false -> destroyed sys = false) ->
  Invariant sys -> Invariant sys'.
Proof.
  intros Hc Htr Hp Hd [Hz He Hl Ht].
  split; rewrite ?Hc, ?Htr, ?Hp; try done.
  intros Hlate. destruct (Hl Hlate) as (a & rm & rp & o & ? & ? & ? & ? & ? & Hobs).
  exists a, rm, rp, o. do 5 (split; [done|]). intros Hd'. apply Hobs, Hd, Hd'.
Qed.

Lemma quiet_kind k new :
  k ≠ KSetup -> k ≠ KTeardown ->
  Forall (λ a, kind a = k) new -> forallb quiet new = true.
Proof.
  intros Hs Ht Hall. apply forallb_forall. intros a Ha.
  rewrite Forall_forall in Hall. apply list_elem_of_In in Ha.
  specialize (Hall a Ha). unfold quiet. rewrite Hall. by destruct k.
Qed.

(** Past [initPixi], a handler that keeps the references and makes quiet
    calls keeps the invariant. *)
Lemma invariant_keeps sys k s' p' :
  Invariant sys ->
  early (phase sys) = false -> early p' = false ->
  k ≠ KSetup -> k ≠ KTeardown ->
  keeps k (state sys) s' ->
  (minZoom <= zoomLevel s'.1 <= maxZoom)%Q ->
  (texturesDone p' = true -> texturesSettled (World.trace s'.2) = true) ->
  Invariant (mkSystem s' p' (destroyed sys)).
Proof.
  intros Hinv Hlate Hp' Hk1 Hk2 (Hh & Hz & new & Htr & Hall) Hz' Hs.
  destruct s' as [c' w'].
  apply (invariant_late sys c' w' p' (destroyed sys) new); try done.
  - intros Hd. split; [done|]. by apply (quiet_kind k).
  - intros Ht. unfold Lifecycle.trace, world. rewrite <- Htr. by apply Hs.
Qed.

Lemma early_not_listening sys :
  Invariant sys -> early (phase sys) = true -> wheelListening (trace sys) = false.
Proof.
  intros [_ He _ _] Hearly. destruct (He Hearly) as [_ Htr].
  destruct (phase sys); cbn in Hearly; try done;
    first [by rewrite Htr | by destruct Htr as [host ->]].
Qed.

(** [initPixi] past its [await]. *)
Lemma initPixi_resume_calls a c w :
  let s' := initPixi_resume H a (c, w) in
  let containers := Helpers.createGameMapContainers H a in
  let observer := Helpers.setupResponsiveCanvas H a (World.nativeElement w) in
  handles s'.1 = (Some a, Some containers.1, Some containers.2, Some observer) /\
  zoomLevel s'.1 = zoomLevel c /\
  World.trace s'.2
  = World.trace w
    ++ [ActCreateGameMapContainers a; ActSetupResponsiveCanvas a observer;
        ActSetupMapDragging a [containers.1; containers.2]
          (nodeWidth w) (nodeHeight w);
        ActAddWheelListener a].
Proof.
  cbn zeta. unfold initPixi_resume, setupMouseDragging.
  cbn [app mapContainer playerIndicatorContainer set_app set_mapContainer
       set_playerIndicatorContainer set_resizeObserver fst snd
       handles resizeObserver zoomLevel].
  do 2 (split; [reflexivity|]).
  rewrite !trace_call, trace_update, trace_call, <- !app_assoc. reflexivity.
Qed.

Lemma step_invariant sys e sys' :
  Invariant sys -> step H sys e = Some sys' -> Invariant sys'.
Proof.
  intros Hinv Hstep. pose proof Hinv as [Hz He Hl Ht].
  destruct sys as [[c w] p d].
  unfold Lifecycle.trace, component, world in *. cbn [state phase destroyed fst snd] in *.
  destruct e; cbn [step state phase destroyed] in Hstep;
    unfold Lifecycle.trace, world in Hstep;
    cbn [state phase destroyed fst snd] in Hstep.
  - (* ngOnInit *)
    destruct p, d; try done.
    cbn in Hstep. injection Hstep as <-.
    destruct (He eq_refl) as [-> Htr].
    split; unfold Lifecycle.trace, component, world; cbn; try done.
    intros _. split; [done|]. rewrite Htr. by eexists.
  - (* a promise settles *)
    unfold resume in Hstep. cbn [state phase destroyed] in Hstep.
    destruct p as [|[a|error]| |promise| | |]; try done.
    + destruct (He eq_refl) as [-> [host Htr]].
      destruct (initPixi_resume_calls a initial w) as (Hh & Hzoom & Htr').
      destruct (initPixi_resume H a (initial, w)) as [c' w'].
      injection Hstep as <-.
      cbn [fst snd] in *. injection Hh as Ha Hm Hp Ho.
      split; unfold Lifecycle.trace, component, world;
        cbn [state phase destroyed fst snd early texturesDone]; try done.
      * rewrite Hzoom. unfold minZoom, maxZoom. cbn. lra.
      * intros _. eexists _, _, _, _. do 4 (split; [eassumption|]).
        rewrite Htr', Htr. done.
    + injection Hstep as <-. destruct (He eq_refl) as [-> [host Htr]].
      split; unfold Lifecycle.trace, component, world;
        cbn [state phase destroyed fst snd early texturesDone]; done.
    + destruct (loadTextures_call_keeps (c, w)) as [Hk Hs].
      destruct (loadTextures_call H (c, w)) as [s' pending].
      injection Hstep as <-. cbn [fst snd] in Hk, Hs.
      pose proof Hk as (_ & Hzoom & _).
      apply (invariant_keeps (mkSystem (c, w) AwaitInitPixi d) KTexture);
        rewrite ?Hzoom; try done.
      * by destruct pending.
      * destruct pending; [done|]. intros _. by apply Hs.
    + destruct (loadTextures_resume_keeps promise (c, w)) as [Hk Hs].
      destruct (loadTextures_resume H promise (c, w)) as [c' w'].
      injection Hstep as <-. pose proof Hk as (_ & Hzoom & _).
      apply (invariant_keeps
               (mkSystem (c, w) (AwaitLoadGameMapTextures promise) d) KTexture);
        rewrite ?Hzoom; done.
    + pose proof (draws_keeps _ _ (updateMap_draws H
                    (MapGridData.tiles (map H w)) (c, w))) as Hk.
      cbn [snd] in Hstep.
      destruct (updateMap H (MapGridData.tiles (map H w)) (c, w)) as [c' w'].
      injection Hstep as <-. pose proof Hk as (_ & Hzoom & new & Htr & _).
      apply (invariant_keeps (mkSystem (c, w) AwaitLoadTextures d) KRender);
        rewrite ?Hzoom; try done.
      intros _. rewrite Htr. apply texturesSettled_app. by apply Ht.
  - (* the effect *)
    destruct d; [done|].
    destruct (early p) eqn:Hearly.
    + destruct (He eq_refl) as [-> Htr]. injection Hstep as <-. exact Hinv.
    + pose proof (draws_keeps _ _ (effect_draws H (c, w))) as Hk.
      destruct (effect H (c, w)) as [c' w'].
      injection Hstep as <-. pose proof Hk as (_ & Hzoom & new & Htr & _).
      apply (invariant_keeps (mkSystem (c, w) p false) KRender);
        rewrite ?Hzoom; try done.
      intros Hdone. rewrite Htr. apply texturesSettled_app. by apply Ht.
  - (* the wheel *)
    destruct d; [done|].
    destruct (wheelListening (World.trace w)) eqn:Hlisten; [|done].
    destruct (early p) eqn:Hearly.
    { pose proof (early_not_listening _ Hinv Hearly) as Hno.
      unfold Lifecycle.trace, world in Hno. cbn in Hno. congruence. }
    destruct (onWheel_keeps event (c, w)) as (Hh & Hzoom & new & Htr & Hall).
    destruct (onWheel event (c, w)) as [c' w'].
    injection Hstep as <-. cbn [fst snd] in *.
    apply (invariant_late (mkSystem (c, w) p false) c' w' p false new);
      try done.
    + by apply Hzoom.
    + intros _. split; [done|]. by apply (quiet_kind KWheel).
    + intros Hdone. apply texturesSettled_app. by apply Ht.
  - (* ngOnDestroy *)
    destruct d; [done|]. injection Hstep as <-.
    destruct (early p) eqn:Hearly.
    + destruct (He eq_refl) as [-> Htr].
      by apply (invariant_ext (mkSystem (initial, w) p false)).
    + destruct (Hl eq_refl) as (a & rm & rp & o & Ha & Hm & Hp & Ho & _).
      unfold ngOnDestroy. rewrite Ho, Ha.
      apply (invariant_late (mkSystem (c, w) p false) c _ p true
               [ActDisconnect o; ActDestroy a]); try done.
      * cbn. by rewrite <- app_assoc.
      * intros Hdone. apply texturesSettled_app. by apply Ht.
  - injection Hstep as <-. by apply (invariant_ext (mkSystem (c, w) p d)).
  - injection Hstep as <-. by apply (invariant_ext (mkSystem (c, w) p d)).
  - injection Hstep as <-. by apply (invariant_ext (mkSystem (c, w) p d)).
  - injection Hstep as <-. by apply (invariant_ext (mkSystem (c, w) p d)).
Qed.

Lemma reachable_invariant w0 sys : reachable H w0 sys -> Invariant sys.
Proof.
  induction 1 as [|sys e sys' _ IH Hstep].
  - apply construct_invariant.
  - by apply (step_invariant sys e).
Qed.

(** *** The calls of a step *)

Lemma ngOnDestroy_calls (c : t) (w : World.t) :
  (ngOnDestroy (c, w)).1 = c /\
  World.trace (ngOnDestroy (c, w)).2
  = World.trace w
    ++ match resizeObserver c with Some o => [ActDisconnect o] | None => [] end
    ++ match app c with Some a => [ActDestroy a] | None => [] end.
Proof.
  unfold ngOnDestroy. split; [done|].
  destruct (resizeObserver c), (app c); cbn;
    by rewrite <- ?app_assoc, ?app_nil_r.
Qed.

(** A step only appends to the trace, and what it appends is of the
    kind of its handler. *)
Lemma step_calls sys e sys' :
  step H sys e = Some sys' ->
  exists new, trace sys' = trace sys ++ new /\
    Forall (λ a, Some (kind a) = stepKind (phase sys) e) new.
Proof.
  intros Hstep. destruct sys as [[c w] p d].
  destruct e; cbn [step state phase destroyed] in Hstep;
    unfold Lifecycle.trace, world in *;
    cbn [state phase destroyed fst snd stepKind] in *.
  - destruct p, d; try done. injection Hstep as <-.
    eexists [_]. split; [reflexivity|]. by repeat constructor.
  - unfold resume in Hstep. cbn [state phase destroyed] in Hstep.
    destruct p as [|[a|error]| |promise| | |]; try done.
    + destruct (initPixi_resume_calls a c w) as (_ & _ & Htr).
      injection Hstep as <-. eexists. split; [exact Htr|]. by repeat constructor.
    + injection Hstep as <-. exists []. by rewrite app_nil_r.
    + destruct (loadTextures_call_keeps (c, w)) as [(_ & _ & new & Htr & Hall) _].
      destruct (loadTextures_call H (c, w)) as [s' pending].
      injection Hstep as <-. exists new. split; [done|].
      eapply Forall_impl; [exact Hall|]. by intros a ->.
    + destruct (loadTextures_resume_keeps promise (c, w))
        as [(_ & _ & new & Htr & Hall) _].
      injection Hstep as <-. exists new. split; [done|].
      eapply Forall_impl; [exact Hall|]. by intros a ->.
    + destruct (draws_keeps _ _ (updateMap_draws H
                  (MapGridData.tiles (map H w)) (c, w)))
        as (_ & _ & new & Htr & Hall).
      injection Hstep as <-. exists new. split; [done|].
      eapply Forall_impl; [exact Hall|]. by intros a ->.
  - destruct d; [done|]. injection Hstep as <-.
    destruct (draws_keeps _ _ (effect_draws H (c, w)))
      as (_ & _ & new & Htr & Hall).
    exists new. split; [done|].
    eapply Forall_impl; [exact Hall|]. by intros a ->.
  - destruct d; [done|].
    destruct (wheelListening (World.trace w)); [|done].
    injection Hstep as <-.
    destruct (onWheel_keeps event (c, w)) as (_ & _ & new & Htr & Hall).
    exists new. split; [done|].
    eapply Forall_impl; [exact Hall|]. by intros a ->.
  - destruct d; [done|]. injection Hstep as <-.
    destruct (ngOnDestroy_calls c w) as [_ Htr].
    eexists. split; [exact Htr|].
    destruct (resizeObserver c), (app c); by repeat constructor.
  - injection Hstep as <-. exists []. by rewrite app_nil_r.
  - injection Hstep as <-. exists []. by rewrite app_nil_r.
  - injection Hstep as <-. exists []. by rewrite app_nil_r.
  - injection Hstep as <-. exists []. by rewrite app_nil_r.
Qed.

Lemma run_reachable w0 sys events sys' :
  reachable H w0 sys -> run H sys events = Some sys' -> reachable H w0 sys'.
Proof.
  revert sys. induction events as [|e events IH]; intros sys Hr Hrun.
  - injection Hrun as <-. done.
  - cbn in Hrun. destruct (step H sys e) as [sys1|] eqn:Hstep; [|done].
    apply (IH sys1); [|done]. by apply (reachable_step H w0 sys e).
Qed.

Lemma onWheel_zoom_clamped event (c : t) (w : World.t) rm a :
  mapContainer c = Some rm -> app c = Some a ->
  (zoomLevel (onWheel event (c, w)).1 == clampedZoom event (zoomLevel c))%Q.
Proof.
  intros Hm Ha.
  destruct (Qeqb (clampedZoom event (zoomLevel c)) (zoomLevel c)) eqn:Heq.
  - unfold onWheel. rewrite Hm, Ha.
    fold (clampedZoom event (zoomLevel c)). rewrite Heq. cbn.
    symmetry. by apply Qeq_bool_iff.
  - destruct (onWheel_zoomed event c w rm a Hm Ha Heq) as (-> & _). reflexivity.
Qed.

(** Only [ngOnInit] leaves the first phase, by the call of line 106. *)
Lemma step_leaves_constructed sys e sys' :
  step H sys e = Some sys' ->
  phase sys = Constructed -> phase sys' ≠ Constructed ->
  e = EvNgOnInit /\
  trace sys' = trace sys ++ [initCall (World.nativeElement (world sys))].
Proof.
  intros Hstep Hc Hp. destruct sys as [[c w] p d]. cbn in Hc. subst p.
  destruct e; cbn [step resume state phase destroyed] in Hstep;
    try discriminate Hstep.
  - destruct d; [done|]. cbn in Hstep. by injection Hstep as <-.
  - destruct d; [done|]. injection Hstep as <-. done.
  - destruct d; [done|]. destruct (wheelListening _); [|done].
    injection Hstep as <-. done.
  - destruct d; [done|]. injection Hstep as <-. done.
  - injection Hstep as <-. done.
  - injection Hstep as <-. done.
  - injection Hstep as <-. done.
  - injection Hstep as <-. done.
Qed.

(** Past the first phase, the trace starts with the call of
    [initializePixiApp]. *)
Lemma reachable_first_call w0 sys :
  reachable H w0 sys -> phase sys ≠ Constructed ->
  exists nativeElement rest, trace sys = initCall nativeElement :: rest.
Proof.
  induction 1 as [|sys e sys' Hr IH Hstep]; [done|]. intros Hp.
  assert (phase sys = Constructed \/ phase sys ≠ Constructed) as [Hc|Hc]
    by (destruct (phase sys); first [by left | by right]).
  - destruct (step_leaves_constructed _ _ _ Hstep Hc Hp) as [_ Htr].
    pose proof (reachable_invariant _ _ Hr) as [_ He _ _].
    rewrite Hc in He. destruct (He eq_refl) as [_ Hnil].
    rewrite Htr, Hnil. by eexists _, [].
  - destruct (step_calls _ _ _ Hstep) as (new & Htr & _).
    destruct (IH Hc) as (host & rest & Hrest).
    exists host, (rest ++ new). by rewrite Htr, Hrest.
Qed.

(** C3.  The zoom level starts at 1, every wheel event sets it to the
    old level plus or minus 1/10, clamped to [minZoom, maxZoom], and so
    it is in [1/2, 1] in every state the component reaches. *)
Theorem zoomLevel_in_range (w0 : World.t) (sys : System) :
  reachable H w0 sys ->
  zoomLevel (component (construct w0)) = 1%Q /\
  (minZoom <= zoomLevel (component sys) <= maxZoom)%Q /\
  (forall event sys',
     step H sys (EvWheel event) = Some sys' ->
     (zoomLevel (component sys')
      == clampedZoom event (zoomLevel (component sys)))%Q /\
     (zoomDelta event = 1 # 10 \/ zoomDelta event = - (1 # 10))%Q).
Proof.
  intros Hr. pose proof (reachable_invariant _ _ Hr) as Hinv.
  split; [done|]. split; [apply Hinv|].
  intros event sys' Hstep. split.
  - destruct sys as [[c w] p d]. cbn [step state phase destroyed] in Hstep.
    destruct d; [done|].
    destruct (wheelListening _) eqn:Hlisten; [|done].
    injection Hstep as <-.
    destruct (early p) eqn:Hearly.
    { pose proof (early_not_listening _ Hinv Hearly). congruence. }
    destruct (inv_late _ Hinv Hearly) as (a & rm & rp & o & Ha & Hm & _).
    by apply (onWheel_zoom_clamped event c w rm a).
  - unfold zoomDelta. destruct (Qltb _ _); first [by left | by right].
Qed.

(** C8.  A delivered wheel event changes the zoom level exactly when
    the clamped new zoom of lines 149 and 150 differs from the old one;
    it then writes that new zoom to the component and, as scale in x and
    in y, to both the map container and the player-indicator container,
    and both containers get the same position. *)
Theorem onWheel_zoom_uniform (w0 : World.t) (sys sys' : System)
    (event : WheelEvent.t) :
  reachable H w0 sys ->
  step H sys (EvWheel event) = Some sys' ->
  let oldZoom := zoomLevel (component sys) in
  let newZoom := clampedZoom event oldZoom in
  (zoomLevel (component sys') ≠ oldZoom <-> ~ (newZoom == oldZoom)%Q) /\
  (~ (newZoom == oldZoom)%Q ->
   exists rm rp,
     mapContainer (component sys') = Some rm /\
     playerIndicatorContainer (component sys') = Some rp /\
     zoomLevel (component sys') = newZoom /\
     let map := World.container (world sys') rm in
     let playerIndicator := World.container (world sys') rp in
     Container.scale map = Point.mk newZoom newZoom /\
     Container.scale playerIndicator = Point.mk newZoom newZoom /\
     Container.position playerIndicator = Container.position map).
Proof.
  intros Hr Hstep oldZoom newZoom.
  pose proof (reachable_invariant _ _ Hr) as Hinv.
  destruct sys as [[c w] p d]. cbn [step state phase destroyed] in Hstep.
  destruct d; [done|].
  destruct (wheelListening _) eqn:Hlisten; [|done].
  destruct (early p) eqn:Hearly.
  { pose proof (early_not_listening _ Hinv Hearly). congruence. }
  destruct (inv_late _ Hinv Hearly) as (a & rm & rp & o & Ha & Hm & Hp & _).
  change (component {| state := (c, w); phase := p; destroyed := false |})
    with c in *.
  assert (~ (newZoom == oldZoom)%Q ->
          Qeqb (clampedZoom event (zoomLevel c)) (zoomLevel c) = false) as Hin.
  { intros Hne. unfold Qeqb. destruct (Qeq_bool _ _) eqn:Heq; [|done].
    by apply Qeq_bool_iff in Heq. }
  assert (component sys' = (onWheel event (c, w)).1 /\
          world sys' = (onWheel event (c, w)).2) as [-> ->]
    by (by injection Hstep as <-).
  split; [split|].
  - intros Hchg Heq.
    destruct (onWheel_changes_zoom _ _ _ Hchg) as (_ & _ & _ & _ & Hne).
    unfold Qeqb in Hne. apply Qeq_bool_iff in Heq.
    fold oldZoom newZoom in Hne. congruence.
  - intros Hne.
    destruct (onWheel_zoomed event c w rm a Hm Ha (Hin Hne)) as (-> & _).
    cbn [zoomLevel set_zoomLevel]. intros Heq. apply Hne.
    unfold newZoom, oldZoom in *. by rewrite Heq.
  - intros Hne.
    destruct (onWheel_zoomed event c w rm a Hm Ha (Hin Hne))
      as (Hc & Hpos & Hscale & Hplayer & _).
    destruct (Hplayer rp Hp) as [Hpos' Hscale'].
    exists rm, rp. rewrite Hc.
    cbn [mapContainer playerIndicatorContainer set_zoomLevel zoomLevel].
    rewrite Hscale, Hscale', Hpos, Hpos'. done.
Qed.

(** What [ngOnDestroy] does release: the resize observer and the
    rendering surface the component holds when it is called; when it
    returns, none of the observers and surfaces set up so far is left.
    (What [initPixi] sets up after that is another matter, see
    [teardown_before_init_completes].) *)
Theorem ngOnDestroy_releases (w0 : World.t) (sys sys' : System) :
  reachable H w0 sys ->
  step H sys EvNgOnDestroy = Some sys' ->
  (forall o, resizeObserver (component sys) = Some o ->
     ActDisconnect o ∈ trace sys') /\
  (forall a, app (component sys) = Some a -> ActDestroy a ∈ trace sys') /\
  connectedObservers (trace sys') = [] /\
  liveSurfaces (trace sys') = [].
Proof.
  intros Hr Hstep. pose proof (reachable_invariant _ _ Hr) as Hinv.
  destruct sys as [[c w] p d]. cbn [step state phase destroyed] in Hstep.
  destruct d; [done|].
  destruct (ngOnDestroy_calls c w) as [_ Htr].
  destruct (ngOnDestroy (c, w)) as [c' w']. injection Hstep as <-.
  change (trace {| state := (c', w'); phase := p; destroyed := true |})
    with (World.trace w').
  change (component {| state := (c, w); phase := p; destroyed := false |})
    with c.
  cbn [snd] in Htr. rewrite Htr. clear Htr.
  destruct (early p) eqn:Hearly.
  - destruct (inv_early _ Hinv Hearly) as [Hc Htr0].
    change (component {| state := (c, w); phase := p; destroyed := false |})
      with c in Hc.
    change (trace {| state := (c, w); phase := p; destroyed := false |})
      with (World.trace w) in Htr0.
    cbn [phase] in Htr0. subst c. cbn [resizeObserver app initial].
    rewrite !app_nil_r. do 2 (split; [done|]).
    destruct p; cbn in Hearly; try done;
      first [by rewrite Htr0 | by destruct Htr0 as [host ->]].
  - destruct (inv_late _ Hinv Hearly)
      as (a & rm & rp & o & Ha & Hm & Hp & Ho & _ & Hobs).
    change (component {| state := (c, w); phase := p; destroyed := false |})
      with c in *.
    change (trace {| state := (c, w); phase := p; destroyed := false |})
      with (World.trace w) in *.
    destruct (Hobs eq_refl) as [Hconn Hlive].
    rewrite Ha, Ho. split; [|split; [|split]].
    + intros ? [= <-]. rewrite !elem_of_app, !list_elem_of_singleton. auto.
    + intros ? [= <-]. rewrite !elem_of_app, !list_elem_of_singleton. auto.
    + unfold connectedObservers in *. rewrite !foldl_app, Hconn. cbn.
      by rewrite decide_False by (intros Hne; by apply Hne).
    + unfold liveSurfaces in *. rewrite !foldl_app, Hlive. cbn.
      by rewrite decide_False by (intros Hne; by apply Hne).
Qed.

(** Mounting with no other handler in between is [ngOnInit] read from
    top to bottom. *)
Lemma ngOnInit_run s s' :
  ngOnInit H s = inl s' ->
  exists n,
    run H (mkSystem s Constructed false) (EvNgOnInit :: replicate n EvResume)
    = Some (mkSystem s' Mounted false).
Proof.
  unfold ngOnInit, loadTextures. intros Hinit.
  destruct (initPixi_call H s) as [s1 [a|error]] eqn:Hcall; [|done].
  destruct (loadTextures_call H (initPixi_resume H a s1)) as [s2 pending] eqn:Hload.
  injection Hinit as <-.
  destruct pending as [promise|].
  - exists 4. cbn. rewrite Hcall. cbn. rewrite Hload. done.
  - exists 3. cbn. rewrite Hcall. cbn. rewrite Hload. done.
Qed.

(** At both places [updateMap] is called from, the two containers
    exist. *)
Lemma callsUpdateMap_ready w0 sys :
  reachable H w0 sys -> callsUpdateMap sys ->
  exists rm rp,
    mapContainer (component sys) = Some rm /\
    playerIndicatorContainer (component sys) = Some rp.
Proof.
  intros Hr Hcall. pose proof (reachable_invariant _ _ Hr) as Hinv.
  assert (early (phase sys) = false) as Hlate.
  { destruct Hcall as [[[a Ha] _]|Hphase]; [|by rewrite Hphase].
    destruct (early (phase sys)) eqn:Hearly; [|done].
    destruct (inv_early _ Hinv Hearly) as [Hc _]. rewrite Hc in Ha. done. }
  destruct (inv_late _ Hinv Hlate) as (a & rm & rp & o & _ & Hm & Hp & _).
  by exists rm, rp.
Qed.

Lemma spriteLog_tiles tiles s : (spriteLog H tiles s).*1 = tiles.
Proof.
  revert s. induction tiles as [|tile tiles IH]; intros s; [done|].
  cbn. by rewrite IH.
Qed.

(** C4.  Whenever [updateMap] is called, the sprite registry is built
    anew: both containers are emptied first, sprite creation runs once
    for each tile of the map data, in order, and afterwards the registry
    has an entry under a key exactly when sprite creation returned data
    for a tile with that key (distinct tiles have distinct keys); the
    registry and the children from before the call play no part. *)
Theorem updateMap_rebuilds_registry (w0 : World.t) (sys : System)
    (mapData : list (list MapTileData.t)) :
  reachable H w0 sys ->
  callsUpdateMap sys ->
  let s := state sys in
  let s' := updateMap H mapData s in
  exists rm rp,
    mapContainer s.1 = Some rm /\ playerIndicatorContainer s.1 = Some rp /\
    let cleared := clearMap rm rp s in
    let log := spriteLog H (concat mapData) cleared in
    nodeSprites cleared.1 = ∅ /\
    Container.children (World.container cleared.2 rm) = [] /\
    Container.children (World.container cleared.2 rp) = [] /\
    s' = updatePlayerIndicators H mapData
           (forEachTile
              (λ tile, createNodeSprites H (MapTileData.x tile)
                         (MapTileData.y tile) (MapTileData.nodeData tile))
              mapData cleared) /\
    log.*1 = concat mapData /\
    nodeSprites s'.1 = registryOf log /\
    (forall k, is_Some (nodeSprites s'.1 !! k) <->
       exists tile d, (tile, Some d) ∈ log /\
         k = nodeKey (MapTileData.x tile) (MapTileData.y tile)) /\
    (forall k d, nodeSprites s'.1 !! k = Some d ->
       exists tile, (tile, Some d) ∈ log /\
         k = nodeKey (MapTileData.x tile) (MapTileData.y tile)) /\
    (forall x y x' y', nodeKey x y = nodeKey x' y' -> x = x' /\ y = y') /\
    (forall reg lm lp,
       updateMap H mapData
         (set_nodeSprites reg s.1,
          World.update rm (Container.set_children lm)
            (World.update rp (Container.set_children lp) s.2))
       = s').
Proof.
  intros Hr Hcall s s'.
  destruct (callsUpdateMap_ready _ _ Hr Hcall) as (rm & rp & Hm & Hp).
  exists rm, rp. subst s s'. unfold component in Hm, Hp.
  destruct (state sys) as [c w]. cbn [fst snd] in *.
  split; [done|]. split; [done|]. cbn zeta.
  pose proof (updateMap_registry H mapData c w rm rp Hm Hp) as Hreg.
  split; [done|]. split.
  { unfold clearMap. cbn [snd]. destruct (decide (rp = rm)) as [->|Hne].
    - by store.
    - rewrite container_call, container_update_ne by done. by store. }
  split; [unfold clearMap; cbn [snd]; by store|].
  split; [by apply updateMap_unfold|].
  split; [apply spriteLog_tiles|]. split; [exact Hreg|].
  rewrite Hreg. split; [|split; [|split]].
  - intros k. apply registryOf_lookup.
  - intros k. apply registryOf_lookup.
  - apply nodeKey_inj.
  - intros reg lm lp. by apply updateMap_forgets.
Qed.

(** *** The order of mounting *)

Lemma step_new sys e sys' new :
  step H sys e = Some sys' -> trace sys' = trace sys ++ new ->
  Forall (λ a, Some (kind a) = stepKind (phase sys) e) new.
Proof.
  intros Hstep Htr. destruct (step_calls _ _ _ Hstep) as (new' & Htr' & Hall).
  rewrite Htr in Htr'. by apply app_inv_head in Htr' as ->.
Qed.

(** Before [initPixi] is over, the effect does nothing. *)
Lemma effect_early sys :
  Invariant sys -> early (phase sys) = true ->
  effect H (state sys) = state sys.
Proof.
  intros Hinv Hearly. destruct (inv_early _ Hinv Hearly) as [Hc _].
  unfold component in Hc. destruct (state sys) as [c w]. cbn in Hc. by subst c.
Qed.

(** C6, as the code has it.  [ngOnInit] calls [initializePixiApp] first,
    with the size of the host element and before any other call; the
    calls of [loadTextures] come only once [initPixi] has run to its end;
    the tiles are drawn only once [initPixi] has run to its end, and
    [ngOnInit] itself draws them only once [loadTextures] has returned.
    (The effect of the constructor may draw before that.) *)
Theorem ngOnInit_order (w0 : World.t) (sys sys' : System) (e : Event)
    (new : list Action) :
  reachable H w0 sys ->
  step H sys e = Some sys' ->
  trace sys' = trace sys ++ new ->
  (forall a, a ∈ new -> kind a = KInit ->
     e = EvNgOnInit /\ trace sys = [] /\
     new = [initCall (World.nativeElement (world sys))]) /\
  (forall a, a ∈ new -> kind a = KTexture ->
     e = EvResume /\ wheelListening (trace sys) = true /\
     exists nativeElement rest, trace sys = initCall nativeElement :: rest) /\
  (forall a, a ∈ new -> kind a = KRender ->
     wheelListening (trace sys) = true /\
     (e = EvResume ->
      texturesSettled (trace sys) = true /\ phase sys' = Mounted)).
Proof.
  intros Hr Hstep Htr. pose proof (reachable_invariant _ _ Hr) as Hinv.
  pose proof (step_new _ _ _ _ Hstep Htr) as Hall.
  rewrite Forall_forall in Hall.
  split; [|split]; intros a Ha Hk; specialize (Hall a Ha); rewrite Hk in Hall.
  - assert (e = EvNgOnInit) as ->.
    { destruct e; try done. cbn in Hall. by destruct (phase sys). }
    assert (phase sys = Constructed) as Hc.
    { destruct sys as [s p d]. cbn in Hstep |- *. by destruct p. }
    assert (phase sys' ≠ Constructed) as Hc'.
    { destruct sys as [s p d]. cbn in Hstep, Hc. subst p.
      destruct d; [done|]. cbn in Hstep.
      destruct (initPixi_call H s). by injection Hstep as <-. }
    destruct (step_leaves_constructed _ _ _ Hstep Hc Hc') as [_ Htr'].
    rewrite Htr in Htr'. apply app_inv_head in Htr'.
    destruct (inv_early _ Hinv) as [_ Hnil]; [by rewrite Hc|].
    rewrite Hc in Hnil. done.
  - assert (e = EvResume /\ early (phase sys) = false) as [-> Hlate].
    { destruct e; try done. cbn in Hall. by destruct (phase sys). }
    split; [done|].
    destruct (inv_late _ Hinv Hlate) as (_ & _ & _ & _ & _ & _ & _ & _ & Hw & _).
    split; [done|]. apply (reachable_first_call w0); [done|].
    by destruct (phase sys).
  - assert (early (phase sys) = false) as Hlate.
    { destruct (early (phase sys)) eqn:Hearly; [|done].
      destruct e; try done.
      - cbn in Hall. by destruct (phase sys).
      - pose proof (effect_early _ Hinv Hearly) as Heff.
        destruct sys as [s p d]. cbn [step state phase destroyed] in *.
        destruct d; [done|]. injection Hstep as <-.
        unfold Lifecycle.trace, world in Htr. cbn [state] in Htr.
        rewrite Heff in Htr. rewrite <- (app_nil_r (World.trace s.2)) in Htr at 1.
        apply app_inv_head in Htr as <-. by apply elem_of_nil in Ha. }
    destruct (inv_late _ Hinv Hlate) as (_ & _ & _ & _ & _ & _ & _ & _ & Hw & _).
    split; [done|]. intros ->.
    assert (phase sys = AwaitLoadTextures) as Hphase.
    { cbn in Hall. by destruct (phase sys). }
    split; [apply (inv_textures _ Hinv); by rewrite Hphase|].
    destruct sys as [s p d]. cbn in Hphase. subst p.
    cbn in Hstep. by injection Hstep as <-.
Qed.

End Life.

(** ** Loading the textures *)
Section Textures.
Import GameMapPixiComponent.
Variable H : Helpers.t.

Lemma call_set_trace a tr (w : World.t) :
  World.call a (World.set_trace tr w) = World.set_trace (tr ++ [a]) w.
Proof. reflexivity. Qed.

Lemma call_first a (w : World.t) :
  World.call a w = World.set_trace (World.trace w ++ [a]) w.
Proof. reflexivity. Qed.

(** C5, as the code has it.  Whatever throws inside [loadTextures] is
    caught and logged once, and nothing is called again.  When
    [artAtlases()] or [loadGameMapTextures] throws, the component is left
    as it was, its four texture fields with it; when
    [createClaimIndicatorTextures] throws, [terrainTextures] and
    [objectTextures] are assigned already and the two indicator textures
    are left as they were; with no throw all four are assigned and
    nothing is logged. *)
Theorem loadTextures_outcomes (c : t) (w : World.t) :
  let s' := loadTextures H (c, w) in
  let failed error := ActLoggerError "Failed to load textures:" error in
  let calls new := World.set_trace (World.trace w ++ new) w in
  match Helpers.artAtlases H with
  | Throw error => s' = (c, calls [ActArtAtlases; failed error])
  | Ok artAtlases =>
      match Helpers.loadGameMapTextures H
              (artAtlases !! "world-terrain") (artAtlases !! "world-object") with
      | Throw error =>
          s' = (c, calls [ActArtAtlases; ActLoadGameMapTextures; failed error])
      | Ok textures =>
          let assigned :=
            set_objectTextures textures.2 (set_terrainTextures textures.1 c) in
          match Helpers.createClaimIndicatorTextures H with
          | Throw error =>
              s' = (assigned,
                    calls [ActArtAtlases; ActLoadGameMapTextures;
                           ActCreateClaimIndicatorTextures; failed error])
          | Ok claimTextures =>
              s' = (set_xTexture (Some claimTextures.2)
                      (set_checkTexture (Some claimTextures.1) assigned),
                    calls [ActArtAtlases; ActLoadGameMapTextures;
                           ActCreateClaimIndicatorTextures])
          end
      end
  end.
Proof.
  cbn zeta. unfold loadTextures, loadTextures_call.
  destruct (Helpers.artAtlases H) as [artAtlases|error].
  - unfold loadTextures_resume.
    destruct (Helpers.loadGameMapTextures H _ _) as [textures|error].
    + destruct (Helpers.createClaimIndicatorTextures H) as [claimTextures|error];
        unfold logFailedToLoad;
        by rewrite (call_first ActArtAtlases), !call_set_trace, <- !app_assoc.
    + unfold logFailedToLoad.
      by rewrite (call_first ActArtAtlases), !call_set_trace, <- !app_assoc.
  - unfold logFailedToLoad.
    by rewrite (call_first ActArtAtlases), !call_set_trace, <- !app_assoc.
Qed.

End Textures.

(** ** The tile window *)
Section Window.
Import GameMapPixiComponent.
Variable H : Helpers.t.

(** C7.  The width of the tile window is the smaller of the world's
    width and the window's width in tiles plus one, likewise for the
    height, so neither is above the world's; these are the sizes the map
    grid is generated with. *)
Theorem tile_window_within_world (w : World.t) :
  let world := GameState.world (World.gamestate w) in
  (nodeWidth w
   = Qmin (WorldSize.width world) (World.windowWidthTiles w + 1))%Q /\
  (nodeHeight w
   = Qmin (WorldSize.height world) (World.windowHeightTiles w + 1))%Q /\
  (nodeWidth w <= WorldSize.width world)%Q /\
  (nodeHeight w <= WorldSize.height world)%Q /\
  map H w
  = Helpers.generateMapGrid H
      (CameraState.x (camera w)) (CameraState.y (camera w))
      (nodeWidth w) (nodeHeight w)
      (WorldSize.width world) (WorldSize.height world).
Proof.
  cbn zeta. do 2 (split; [reflexivity|]).
  split; [apply Q.le_min_l|]. split; [apply Q.le_min_l|]. reflexivity.
Qed.

End Window.

(** ** The zoom level in binary64 *)
Section Doubles.
Import Binary64.

Ltac member := first [left; reflexivity | right; member].

Lemma levels_closed (z deltaY : float) :
  In z levels -> In (zoomAfterWheel z deltaY) levels.
Proof.
  intros Hin. unfold zoomAfterWheel, zoomDelta.
  destruct (deltaY <? 0)%float;
    repeat (destruct Hin as [<-|Hin]; [vm_compute; member|]);
    destruct Hin.
Qed.

Lemma reached_levels (z : float) : reached z -> In z levels.
Proof.
  induction 1 as [|z deltaY _ IH]; [by left | by apply levels_closed].
Qed.

(** On doubles too the zoom level stays in [0.5, 1.0]: twelve levels can
    be reached, and each is in range. *)
Lemma reached_inRange (z : float) : reached z -> inRange z = true.
Proof.
  intros Hr. apply reached_levels in Hr.
  repeat (destruct Hr as [<-|Hr]; [vm_compute; reflexivity|]). destruct Hr.
Qed.

(** On doubles too a wheel event leaves a reached zoom level as it is
    only when zooming in at 1.0 or zooming out at 0.5. *)
Lemma reached_unchanged (z deltaY : float) :
  reached z -> zoomAfterWheel z deltaY = z ->
  ((deltaY <? 0)%float = true /\ z = maxZoom) \/
  ((deltaY <? 0)%float = false /\ z = minZoom).
Proof.
  intros Hr. apply reached_levels in Hr.
  unfold zoomAfterWheel, zoomDelta.
  destruct (deltaY <? 0)%float;
    repeat (destruct Hr as [<-|Hr];
            [vm_compute; intros Heq;
             first [by left | by right | discriminate Heq]|]);
    destruct Hr.
Qed.

(** On doubles the world point under the cursor is not kept exactly:
    with the cursor at 1279, the offset at -640 and a zoom from 0.5 to
    0.6 it moves from 3838 to 3837.9999999999995. *)
Example world_point_binary64 :
  let mouse := 1279%float in
  let offset := (-640)%float in
  let oldZoom := 0x1p-1%float in
  let newZoom := zoomAfterWheel oldZoom (-1)%float in
  newZoom = 0x1.3333333333333p-1%float /\
  worldPoint mouse offset oldZoom = 3838%float /\
  worldPoint mouse (newOffset mouse offset oldZoom newZoom) newZoom
  = 0x1.dfbffffffffffp+11%float /\
  (abs (worldPoint mouse (newOffset mouse offset oldZoom newZoom) newZoom
        - worldPoint mouse offset oldZoom) <? 0x1p-40)%float = true.
Proof. vm_compute. repeat split. Qed.

End Doubles.

(** ** The wheel handler on doubles *)
Section Rounding.
Import GameMapPixiComponent Double.
Local Open Scope Q_scope.

Lemma nearestEven_error r : Qabs (inject_Z (nearestEven r) - r) <= 1 # 2.
Proof.
  unfold nearestEven.
  pose proof (Qfloor_le r) as Hlo. pose proof (Qlt_floor r) as Hhi.
  rewrite inject_Z_plus in Hhi. change (inject_Z 1) with 1 in Hhi.
  destruct (Qcompare (r - inject_Z (Qfloor r)) (1 # 2)) eqn:Hc.
  - apply Qeq_alt in Hc. destruct (Z.even (Qfloor r));
      rewrite ?inject_Z_plus; change (inject_Z 1) with 1;
      apply Qabs_Qle_condition; split; lra.
  - apply Qlt_alt in Hc. apply Qabs_Qle_condition; split; lra.
  - apply Qgt_alt in Hc. rewrite inject_Z_plus. change (inject_Z 1) with 1.
    apply Qabs_Qle_condition; split; lra.
Qed.

Lemma pow2_pos (e : Z) : 0 < 2 ^ e.
Proof. by apply Qpower_0_lt. Qed.

Lemma pow2_inv (e : Z) : 2 ^ (- e) * 2 ^ e == 1.
Proof.
  rewrite Qpower_opp. pose proof (pow2_pos e). field. lra.
Qed.

Lemma pow2_succ (e : Z) : 2 ^ (e + 1) == 2 * 2 ^ e.
Proof. rewrite Qpower_plus by lra. change (2 ^ 1) with 2. ring. Qed.

Lemma pow2_Z (n : Z) : (0 <= n)%Z -> inject_Z (2 ^ n) == 2 ^ n.
Proof. intros Hn. by rewrite Zpower_Qpower. Qed.

(** A rational lies between the powers of two its numerator and its
    denominator lie between. *)
Lemma log2_below (x : Q) :
  ~ x == 0 ->
  2 ^ (Z.log2 (Z.abs (Qnum x)) - Z.log2 (Zpos (Qden x)) - 1) <= Qabs x.
Proof.
  intros Hx. destruct x as [p q]. cbn [Qnum Qden].
  assert (p <> 0)%Z as Hp.
  { intros ->. apply Hx. reflexivity. }
  set (a := Z.log2 (Z.abs p)). set (b := Z.log2 (Zpos q)).
  assert (0 <= a)%Z as Ha by apply Z.log2_nonneg.
  assert (0 <= b)%Z as Hb by apply Z.log2_nonneg.
  destruct (Z.log2_spec (Z.abs p)) as [Hpl _]; [lia|]. fold a in Hpl.
  destruct (Z.log2_spec (Zpos q)) as [_ Hqh]; [lia|]. fold b in Hqh.
  rewrite Zle_Qle in Hpl. rewrite pow2_Z in Hpl by done.
  rewrite Zlt_Qlt in Hqh. rewrite pow2_Z in Hqh by lia.
  replace (Z.succ b) with (b + 1)%Z in Hqh by lia. rewrite pow2_succ in Hqh.
  assert (Qabs (p # q) == inject_Z (Z.abs p) / inject_Z (Zpos q)) as ->.
  { unfold Qabs. apply Qmake_Qdiv. }
  replace (a - b - 1)%Z with (a + - (b + 1))%Z by lia.
  rewrite Qpower_plus by lra. rewrite Qpower_opp, pow2_succ.
  pose proof (pow2_pos a) as Hpa. pose proof (pow2_pos b) as Hpb.
  assert (0 < inject_Z (Zpos q)) as Hq by (change 0 with (inject_Z 0); rewrite <- Zlt_Qlt; lia).
  set (P := inject_Z (Z.abs p)) in *. set (D := inject_Z (Zpos q)) in *.
  set (A := 2 ^ a) in *. set (B := 2 ^ b) in *.
  apply Qle_shift_div_l; [done|].
  assert (A * / (2 * B) * D == A * (D / (2 * B))) as -> by (field; lra).
  assert (D / (2 * B) <= 1) as Hd by (apply Qle_shift_div_r; lra).
  nra.
Qed.

Lemma normalExponent_spec (x : Q) :
  ~ x == 0 -> 2 ^ 52 <= Qabs x * 2 ^ (- normalExponent x).
Proof.
  intros Hx. unfold normalExponent.
  set (e := (Z.log2 (Z.abs (Qnum x)) - Z.log2 (Zpos (Qden x)) - 52)%Z).
  destruct (Qle_bool _ _) eqn:Hle.
  - apply Qle_bool_iff in Hle. by rewrite pow2_Z in Hle.
  - pose proof (log2_below x Hx) as Hlow.
    replace (Z.log2 (Z.abs (Qnum x)) - Z.log2 (Zpos (Qden x)) - 1)%Z
      with (e + 51)%Z in Hlow by lia.
    rewrite Qpower_plus in Hlow by lra.
    replace (- (e - 1))%Z with (- e + 1)%Z by lia. rewrite pow2_succ.
    pose proof (pow2_inv e) as Hinv. pose proof (pow2_pos (- e)) as Hpos.
    set (E := 2 ^ e) in *. set (I := 2 ^ (- e)) in *.
    change (2 ^ 52) with (2 * 2 ^ 51).
    assert (E * 2 ^ 51 * I <= Qabs x * I) as Hm
      by (apply Qmult_le_compat_r; lra).
    assert (E * 2 ^ 51 * I == 2 ^ 51 * (I * E)) as Hassoc by ring.
    rewrite Hassoc in Hm.
    rewrite Hinv in Hm. lra.
Qed.

(** The error of one rounding: relative to the exact value, and bounded
    from below by half the distance of the subnormal doubles. *)
Lemma round_error (x : Q) :
  Qabs (round x - x) <= unitRoundoff * Qabs x + tiny.
Proof.
  unfold round. destruct (Qeq_bool x 0) eqn:H0.
  - apply Qeq_bool_iff in H0. rewrite H0. vm_compute. discriminate.
  - assert (~ x == 0) as Hx.
    { intros Heq. apply Qeq_bool_iff in Heq. congruence. }
    pose proof (normalExponent_spec x Hx) as Hn.
    pose proof (nearestEven_error (x * 2 ^ (- exponent x))) as Hr.
    set (n := inject_Z (nearestEven (x * 2 ^ (- exponent x)))) in *.
    pose proof (pow2_inv (exponent x)) as Hinv.
    pose proof (pow2_pos (exponent x)) as Hpos.
    pose proof (pow2_pos (- exponent x)) as Hpos'.
    assert (Qabs (n * 2 ^ exponent x - x)
            == Qabs (n - x * 2 ^ (- exponent x)) * 2 ^ exponent x) as ->.
    { transitivity (Qabs ((n - x * 2 ^ (- exponent x)) * 2 ^ exponent x)).
      - apply Qabs_wd.
        transitivity (n * 2 ^ exponent x
                      - x * (2 ^ (- exponent x) * 2 ^ exponent x));
          [rewrite Hinv; ring | ring].
      - rewrite Qabs_Qmult, (Qabs_pos (2 ^ exponent x)) by lra. reflexivity. }
    assert (Qabs (n - x * 2 ^ (- exponent x)) * 2 ^ exponent x
            <= (1 # 2) * 2 ^ exponent x) as Hhalf
      by (apply Qmult_le_compat_r; lra).
    pose proof (Qabs_nonneg x) as Hax.
    assert (0 < tiny) as Ht by (vm_compute; reflexivity).
    assert (0 < unitRoundoff) as Hu0 by (vm_compute; reflexivity).
    apply (Qle_trans _ _ _ Hhalf). clear Hhalf Hr n Hinv.
    unfold exponent in *.
    destruct (Z.max_spec (normalExponent x) (-1074)) as [[Hlt ->]|[Hge ->]].
    + assert ((1 # 2) * 2 ^ (-1074) == tiny) as ->
        by (vm_compute; reflexivity).
      nra.
    + pose proof (pow2_inv (normalExponent x)) as Hinv.
      pose proof (pow2_pos (normalExponent x)) as HE.
      set (e := normalExponent x) in *.
      set (E := 2 ^ e) in *. set (I := 2 ^ (- e)) in *.
      assert (2 ^ 52 * E <= Qabs x * I * E) as Hm
        by (apply Qmult_le_compat_r; lra).
      assert (Qabs x * I * E == Qabs x) as Hm1
        by (transitivity (Qabs x * (I * E)); [ring | rewrite Hinv; ring]).
      rewrite Hm1 in Hm.
      assert (unitRoundoff * 2 ^ 52 == 1 # 2) as Hu by (vm_compute; reflexivity).
      assert (unitRoundoff * (2 ^ 52 * E) <= unitRoundoff * Qabs x) as Hm'
        by (apply Qmult_le_l; done).
      assert (unitRoundoff * (2 ^ 52 * E) == (1 # 2) * E) as Hm2
        by (rewrite <- Hu; ring).
      rewrite Hm2 in Hm'. lra.
Qed.

(** One rounding of a value of size at most [X], in interval form;
    1025/1024 covers the subnormal term. *)
Lemma round_near (x X : Q) :
  - X <= x <= X -> 1 <= X ->
  - ((1025 # 9223372036854775808) * X) <= round x - x
  <= (1025 # 9223372036854775808) * X.
Proof.
  intros Hx HX. apply Qabs_Qle_condition.
  apply (Qle_trans _ _ _ (round_error x)).
  assert (Qabs x <= X) as Hax by (by apply Qabs_Qle_condition).
  assert (unitRoundoff == 1 # 9007199254740992) as ->
    by (vm_compute; reflexivity).
  assert (tiny <= (1 # 9223372036854775808)) as Ht
    by (vm_compute; discriminate).
  lra.
Qed.

Lemma round_sized (x X : Q) :
  - X <= x <= X -> 1 <= X ->
  - ((1025 # 1024) * X) <= round x <= (1025 # 1024) * X.
Proof. intros Hx HX. pose proof (round_near x X Hx HX). lra. Qed.

Lemma div_sized (d z X : Q) :
  1 # 2 <= z -> - X <= d <= X -> - (2 * X) <= d / z <= 2 * X.
Proof.
  intros Hz [Hlo Hhi]. split.
  - apply Qle_shift_div_l; [lra|]. nra.
  - apply Qle_shift_div_r; [lra|]. nra.
Qed.

Lemma mul_sized (w z X : Q) :
  0 <= z <= 1 -> - X <= w <= X -> - X <= w * z <= X.
Proof. intros Hz Hw. split; nra. Qed.

(** The world point under the cursor, taken again after the zoom step,
    is off by at most 2^-47 of the size of the coordinates. *)
Lemma reanchor_rounded (B mouse offset oldZoom newZoom : Q) :
  1 <= B -> - B <= mouse <= B -> - B <= offset <= B ->
  1 # 2 <= oldZoom <= 1 -> 1 # 2 <= newZoom <= 1 ->
  Qabs (worldPoint mouse (newOffset mouse offset oldZoom newZoom) newZoom
        - worldPoint mouse offset oldZoom)
  <= B * (1 # 140737488355328).
Proof.
  intros HB Hm Ho Hz Hz'. unfold newOffset, worldPoint, div, sub, mul.
  (* the world point before the step *)
  assert (Hd := round_sized (mouse - offset) (2 * B) ltac:(lra) ltac:(lra)).
  set (d := round (mouse - offset)) in *.
  assert (Hq := div_sized d oldZoom _ ltac:(lra) Hd).
  set (q := d / oldZoom) in *.
  assert (Hw := round_sized q _ Hq ltac:(lra)).
  set (w := round q) in *.
  (* the new offset *)
  assert (Ht := mul_sized w newZoom _ ltac:(lra) Hw).
  set (t := w * newZoom) in *.
  assert (Hp := round_near t _ Ht ltac:(lra)).
  set (p := round t) in *.
  assert (Ho' := round_near (mouse - p) (6 * B) ltac:(lra) ltac:(lra)).
  set (o' := round (mouse - p)) in *.
  (* the world point after the step *)
  assert (Hd' := round_near (mouse - o') (6 * B) ltac:(lra) ltac:(lra)).
  set (d' := round (mouse - o')) in *.
  assert (He := div_sized (d' - t) newZoom
                  (B * (17425 # 9223372036854775808)) ltac:(lra) ltac:(lra)).
  assert (Hq' := div_sized d' newZoom (6 * B) ltac:(lra) ltac:(lra)).
  assert (d' / newZoom - w == (d' - t) / newZoom) as Heq
    by (subst t; field; lra).
  set (q' := d' / newZoom) in *.
  assert (Hw' := round_near q' (12 * B) ltac:(lra) ltac:(lra)).
  set (w' := round q') in *.
  apply Qabs_Qle_condition.
  assert (w' - w == (w' - q') + (q' - w)) as -> by ring.
  rewrite Heq. set (e := (d' - t) / newZoom) in *.
  lra.
Qed.

(** The primitive floats and the rounded rationals compute the same
    numbers: the four operations on every pair of the samples, the zoom
    step from each of the twelve zoom levels in both directions, and the
    world point before and after a zoom step between any two zoom levels
    for a few cursors and offsets. *)
Example primitive_floats_agree :
  forallb (λ a, forallb (operationsAgree a) samples) samples = true /\
  forallb (λ z, zoomAgrees z (-0x1p+0)%float && zoomAgrees z 0x1.8p+1%float)
    Binary64.levels = true /\
  forallb (λ mouse,
      forallb (λ offset,
          forallb (λ oldZoom,
              forallb (worldPointAgrees mouse offset oldZoom) Binary64.levels)
            Binary64.levels)
        [0x0p+0; -0x1.4p+9; -0x1.1988p+16; 0x1.4d4p+8; -0x1.1c37937e08p+53]%float)
    [0x0p+0; 0x1.b8p+6; 0x1.3fcp+10; 0x1.dfcp+10]%float = true.
Proof. vm_compute. repeat split. Qed.

Lemma clampedZoom_rounded_range event z :
  minZoom <= Double.clampedZoom event z <= maxZoom.
Proof.
  unfold Double.clampedZoom, minZoom, maxZoom. split.
  - apply Q.le_max_l.
  - apply Q.max_lub; [lra | apply Q.le_min_l].
Qed.

(** What a wheel event that got past both early returns did, on
    doubles. *)
Lemma onWheel_rounded event c w rm a :
  mapContainer c = Some rm -> app c = Some a ->
  Qeqb (Double.clampedZoom event (zoomLevel c)) (zoomLevel c) = false ->
  let newZoom := Double.clampedZoom event (zoomLevel c) in
  let rect := World.boundingClientRect w in
  let mouseX := sub (WheelEvent.clientX event) (DOMRect.left rect) in
  let mouseY := sub (WheelEvent.clientY event) (DOMRect.top rect) in
  let offset := Container.position (World.container w rm) in
  let s' := Double.onWheel event (c, w) in
  s'.1 = set_zoomLevel newZoom c /\
  Container.position (World.container s'.2 rm)
  = Point.mk (newOffset mouseX (Point.x offset) (zoomLevel c) newZoom)
             (newOffset mouseY (Point.y offset) (zoomLevel c) newZoom).
Proof.
  intros Hm Ha Hne. cbn zeta. unfold Double.onWheel. rewrite Hm, Ha.
  fold (Double.clampedZoom event (zoomLevel c)). rewrite Hne.
  cbn [set_zoomLevel playerIndicatorContainer zoomLevel fst snd].
  cbn [World.call World.set_trace World.boundingClientRect].
  unfold newOffset, worldPoint.
  destruct (playerIndicatorContainer c) as [rp|] eqn:Hp;
    [destruct (decide (rp = rm)) as [->|Hrp]|];
    (split; [reflexivity|]); by store.
Qed.

(** C2.  After a wheel event that changes the zoom level, the world
    point under the cursor is still under the cursor.  On doubles, the
    numbers the handler computes with: when the cursor and the offset of
    the map are at most [B] in size, the world point taken from the new
    offset and the new zoom is within [B] / 2^47 of the one taken from
    the old offset and the old zoom, in x and in y; that is no more
    than 1/128 of a pixel for coordinates up to 2^40.  In exact arithmetic
    the two are equal. *)
Theorem onWheel_world_point_tolerance (event : WheelEvent.t) (c : t)
    (w : World.t) (rm : ContainerRef) (a : Application) (B : Q) :
  let rect := World.boundingClientRect w in
  let oldZoom := zoomLevel c in
  let oldOffset := Container.position (World.container w rm) in
  let mouseX := sub (WheelEvent.clientX event) (DOMRect.left rect) in
  let mouseY := sub (WheelEvent.clientY event) (DOMRect.top rect) in
  mapContainer c = Some rm -> app c = Some a ->
  minZoom <= oldZoom <= maxZoom ->
  1 <= B ->
  - B <= mouseX <= B -> - B <= mouseY <= B ->
  - B <= Point.x oldOffset <= B -> - B <= Point.y oldOffset <= B ->
  (Qeqb (Double.clampedZoom event oldZoom) oldZoom = false ->
   let s' := Double.onWheel event (c, w) in
   let newZoom := zoomLevel s'.1 in
   let newOffset := Container.position (World.container s'.2 rm) in
   newZoom = Double.clampedZoom event oldZoom /\
   Qabs (worldPoint mouseX (Point.x newOffset) newZoom
         - worldPoint mouseX (Point.x oldOffset) oldZoom)
   <= B * (1 # 140737488355328) /\
   Qabs (worldPoint mouseY (Point.y newOffset) newZoom
         - worldPoint mouseY (Point.y oldOffset) oldZoom)
   <= B * (1 # 140737488355328)) /\
  (Qeqb (GameMapPixiComponent.clampedZoom event oldZoom) oldZoom = false ->
   let s' := GameMapPixiComponent.onWheel event (c, w) in
   let newZoom := zoomLevel s'.1 in
   let newOffset := Container.position (World.container s'.2 rm) in
   let exactX := WheelEvent.clientX event - DOMRect.left rect in
   let exactY := WheelEvent.clientY event - DOMRect.top rect in
   newZoom = GameMapPixiComponent.clampedZoom event oldZoom /\
   (exactX - Point.x newOffset) / newZoom
   == (exactX - Point.x oldOffset) / oldZoom /\
   (exactY - Point.y newOffset) / newZoom
   == (exactY - Point.y oldOffset) / oldZoom).
Proof.
  intros rect oldZoom oldOffset mouseX mouseY Hm Ha Hz HB HmX HmY HoX HoY.
  unfold minZoom, maxZoom in Hz. split.
  - intros Hne.
    destruct (onWheel_rounded event c w rm a Hm Ha Hne) as [Hc Hpos].
    cbn zeta. rewrite Hc, Hpos. cbn [zoomLevel set_zoomLevel Point.x Point.y].
    pose proof (clampedZoom_rounded_range event oldZoom) as Hz'.
    unfold minZoom, maxZoom in Hz'.
    split; [reflexivity|]. split; by apply reanchor_rounded.
  - intros Hne.
    destruct (onWheel_zoomed event c w rm a Hm Ha Hne) as (Hc & Hpos & _).
    cbn zeta. rewrite Hc, Hpos. cbn [zoomLevel set_zoomLevel Point.x Point.y].
    pose proof (clampedZoom_nonzero event oldZoom) as Hnz.
    split; [reflexivity|]. split; apply reanchor; exact Hnz.
Qed.

(** Without a bound on the coordinates the world point does move by
    pixels, on the primitive floats as on the rounded rationals: with
    the cursor at 1279, the map offset at -10^16 and a zoom from 0.9 to
    1.0 it moves by 2. *)
Example world_point_far_offset :
  let mouse := 0x1.3fcp+10%float in
  let offset := (-0x1.1c37937e08p+53)%float in
  let oldZoom := 0x1.ccccccccccccdp-1%float in
  let newZoom := Binary64.zoomAfterWheel oldZoom (-0x1p+0)%float in
  let moved :=
    (Binary64.worldPoint mouse
       (Binary64.newOffset mouse offset oldZoom newZoom) newZoom
     - Binary64.worldPoint mouse offset oldZoom)%float in
  newZoom = 0x1p+0%float /\ moved = 0x1p+1%float /\
  (worldPoint (toQ mouse)
     (newOffset (toQ mouse) (toQ offset) (toQ oldZoom) (toQ newZoom))
     (toQ newZoom)
   - worldPoint (toQ mouse) (toQ offset) (toQ oldZoom) == 2).
Proof. vm_compute. repeat split. Qed.

End Rounding.

(** ** The component at work in the small world *)
Section AtWork.
Import GameMapPixiComponent Lifecycle.

Lemma after_reachable (H : Helpers.t) (events : list Event) :
  is_Some (run H (construct Example.world) events) ->
  reachable H Example.world (Example.after H events).
Proof.
  intros [sys Hrun]. unfold Example.after. rewrite Hrun.
  apply (run_reachable H Example.world (construct Example.world) events);
    [constructor | done].
Qed.

End AtWork.

(** A wheel event on the mounted component: the zoom goes from 1 to
    9/10 and the map container from (0, 0) to (10, 20). *)
Lemma onWheel_anchors_offset_witness :
  let s' := GameMapPixiComponent.onWheel Example.wheelOut
              (Example.mountedComponent, Example.mountedWorld) in
  GameMapPixiComponent.zoomLevel s'.1
    ≠ GameMapPixiComponent.zoomLevel Example.mountedComponent /\
  Container.position (World.container s'.2 10) = Point.mk (100 # 10) (200 # 10).
Proof.
  cbn zeta.
  assert (GameMapPixiComponent.zoomLevel
            (GameMapPixiComponent.onWheel Example.wheelOut
               (Example.mountedComponent, Example.mountedWorld)).1
          ≠ GameMapPixiComponent.zoomLevel Example.mountedComponent) as Hchg.
  { vm_compute. discriminate. }
  split; [exact Hchg|].
  destruct (onWheel_anchors_offset _ _ _ Hchg) as (rm & Hm & Hpos).
  vm_compute in Hm. injection Hm as <-. rewrite Hpos. vm_compute. reflexivity.
Defined.

(** The same wheel event: the world point under the cursor is (100, 200)
    before it and after it. *)
Lemma onWheel_keeps_world_point_witness :
  let s' := GameMapPixiComponent.onWheel Example.wheelOut
              (Example.mountedComponent, Example.mountedWorld) in
  let newOffset := Container.position (World.container s'.2 10) in
  GameMapPixiComponent.zoomLevel s'.1
    ≠ GameMapPixiComponent.zoomLevel Example.mountedComponent /\
  ((110 - 10 - Point.x newOffset) / GameMapPixiComponent.zoomLevel s'.1 == 100 /\
   (220 - 20 - Point.y newOffset) / GameMapPixiComponent.zoomLevel s'.1 == 200)%Q.
Proof.
  cbn zeta.
  assert (GameMapPixiComponent.zoomLevel
            (GameMapPixiComponent.onWheel Example.wheelOut
               (Example.mountedComponent, Example.mountedWorld)).1
          ≠ GameMapPixiComponent.zoomLevel Example.mountedComponent) as Hchg.
  { vm_compute. discriminate. }
  split; [exact Hchg|].
  destruct (onWheel_keeps_world_point _ _ _ Hchg) as (rm & Hm & Hx & Hy).
  vm_compute in Hm. injection Hm as <-. split.
  - etrans; [exact Hx|]. vm_compute. reflexivity.
  - etrans; [exact Hy|]. vm_compute. reflexivity.
Defined.

(** The same wheel event on doubles: the zoom goes to the double 0.9,
    and the world point (100, 200) under the cursor at (110, 220) moves
    by no more than 256 / 2^47. *)
Lemma onWheel_world_point_tolerance_witness :
  let c := Example.mountedComponent in
  let w := Example.mountedWorld in
  let s' := Double.onWheel Example.wheelOut (c, w) in
  let newZoom := GameMapPixiComponent.zoomLevel s'.1 in
  let newOffset := Container.position (World.container s'.2 10) in
  GameMapPixiComponent.mapContainer c = Some 10 /\
  GameMapPixiComponent.app c = Some 1 /\
  (GameMapPixiComponent.zoomLevel c == 1)%Q /\
  Container.position (World.container w 10) = Point.mk 0 0 /\
  Double.agrees 0x1.ccccccccccccdp-1%float newZoom = true /\
  (Qabs (Double.worldPoint (Double.sub 110 10) (Point.x newOffset) newZoom - 100)
   <= 256 * (1 # 140737488355328))%Q /\
  (Qabs (Double.worldPoint (Double.sub 220 20) (Point.y newOffset) newZoom - 200)
   <= 256 * (1 # 140737488355328))%Q.
Proof.
  cbn zeta.
  assert (GameMapPixiComponent.mapContainer Example.mountedComponent = Some 10)
    as Hm by (vm_compute; reflexivity).
  assert (GameMapPixiComponent.app Example.mountedComponent = Some 1)
    as Ha by (vm_compute; reflexivity).
  assert (Container.position (World.container Example.mountedWorld 10)
          = Point.mk 0 0) as Hpos by (vm_compute; reflexivity).
  do 2 (split; [done|]). split; [vm_compute; reflexivity|].
  split; [exact Hpos|].
  destruct (onWheel_world_point_tolerance Example.wheelOut
              Example.mountedComponent Example.mountedWorld 10 1 256 Hm Ha)
    as [Hdouble _]; try (vm_compute; split; discriminate).
  { vm_compute. discriminate. }
  destruct Hdouble as (Hz & Hx & Hy); [vm_compute; reflexivity|].
  split; [rewrite Hz; vm_compute; reflexivity|].
  split.
  - refine (Qle_trans _ _ _ _ Hx). apply Qle_lteq. right.
    apply Qabs_wd. vm_compute. reflexivity.
  - refine (Qle_trans _ _ _ _ Hy). apply Qle_lteq. right.
    apply Qabs_wd. vm_compute. reflexivity.
Defined.

(** After mounting and three wheel events the zoom level is in range. *)
Lemma zoomLevel_in_range_witness :
  let sys := Example.after Example.noCanvas
               (Example.mount
                ++ [Lifecycle.EvWheel Example.wheelOut;
                    Lifecycle.EvWheel Example.wheelOut;
                    Lifecycle.EvWheel Example.wheelIn]) in
  Lifecycle.reachable Example.noCanvas Example.world sys /\
  (GameMapPixiComponent.minZoom
     <= GameMapPixiComponent.zoomLevel (Lifecycle.component sys)
     <= GameMapPixiComponent.maxZoom)%Q.
Proof.
  cbn zeta.
  assert (Lifecycle.reachable Example.noCanvas Example.world
            (Example.after Example.noCanvas
               (Example.mount
                ++ [Lifecycle.EvWheel Example.wheelOut;
                    Lifecycle.EvWheel Example.wheelOut;
                    Lifecycle.EvWheel Example.wheelIn]))) as Hr.
  { apply after_reachable. vm_compute. eexists. reflexivity. }
  split; [exact Hr|].
  exact (proj1 (proj2 (zoomLevel_in_range _ _ _ Hr))).
Defined.

Lemma texturesLoaded_reachable :
  Lifecycle.reachable Example.noCanvas Example.world Example.texturesLoaded.
Proof. apply after_reachable. vm_compute. eexists. reflexivity. Qed.

Lemma mounted_reachable :
  Lifecycle.reachable Example.noCanvas Example.world Example.mounted.
Proof. apply after_reachable. vm_compute. eexists. reflexivity. Qed.

(** [ngOnInit] calls [updateMap] on the three tiles of the example: the
    registry is the one of the three creations. *)
Lemma updateMap_rebuilds_registry_witness :
  let s := Lifecycle.state Example.texturesLoaded in
  Lifecycle.reachable Example.noCanvas Example.world Example.texturesLoaded /\
  Lifecycle.callsUpdateMap Example.texturesLoaded /\
  GameMapPixiComponent.nodeSprites
    (GameMapPixiComponent.updateMap Example.noCanvas Example.tiles s).1
  = GameMapPixiComponent.registryOf
      (GameMapPixiComponent.spriteLog Example.noCanvas (concat Example.tiles)
         (GameMapPixiComponent.clearMap 10 11 s)).
Proof.
  cbn zeta.
  assert (Lifecycle.callsUpdateMap Example.texturesLoaded) as Hcall.
  { right. vm_compute. reflexivity. }
  split; [exact texturesLoaded_reachable|]. split; [exact Hcall|].
  destruct (updateMap_rebuilds_registry Example.noCanvas Example.world
              Example.texturesLoaded Example.tiles
              texturesLoaded_reachable Hcall)
    as (rm & rp & Hm & Hp & _ & _ & _ & _ & _ & Hreg & _).
  vm_compute in Hm, Hp. injection Hm as <-. injection Hp as <-. exact Hreg.
Defined.

(** The last step of [ngOnInit] in the example draws the tiles, after
    [initPixi] ran to its end and [loadTextures] logged its error. *)
Lemma ngOnInit_order_witness :
  let new := [ActRemoveChildren 10; ActRemoveChildren 11;
              ActCreateNodeSprites 0 0; ActCreateNodeSprites 1 0;
              ActCreateNodeSprites 0 (-1); ActCreatePlayerIndicator 0 0] in
  Lifecycle.reachable Example.noCanvas Example.world Example.texturesLoaded /\
  Lifecycle.step Example.noCanvas Example.texturesLoaded Lifecycle.EvResume
  = Some Example.mounted /\
  Lifecycle.trace Example.mounted
  = Lifecycle.trace Example.texturesLoaded ++ new /\
  Lifecycle.wheelListening (Lifecycle.trace Example.texturesLoaded) = true /\
  Lifecycle.texturesSettled (Lifecycle.trace Example.texturesLoaded) = true /\
  Lifecycle.phase Example.mounted = Lifecycle.Mounted.
Proof.
  cbn zeta.
  assert (Lifecycle.step Example.noCanvas Example.texturesLoaded
            Lifecycle.EvResume = Some Example.mounted) as Hstep.
  { vm_compute. reflexivity. }
  assert (Lifecycle.trace Example.mounted
          = Lifecycle.trace Example.texturesLoaded
            ++ [ActRemoveChildren 10; ActRemoveChildren 11;
                ActCreateNodeSprites 0 0; ActCreateNodeSprites 1 0;
                ActCreateNodeSprites 0 (-1); ActCreatePlayerIndicator 0 0])
    as Htr.
  { vm_compute. reflexivity. }
  split; [exact texturesLoaded_reachable|].
  split; [exact Hstep|]. split; [exact Htr|].
  destruct (ngOnInit_order Example.noCanvas Example.world _ _ _ _
              texturesLoaded_reachable Hstep Htr) as (_ & _ & Hrender).
  destruct (Hrender (ActRemoveChildren 10)) as [Hlisten Hresume].
  - by left.
  - reflexivity.
  - split; [exact Hlisten|]. by apply Hresume.
Defined.

(** The effect of the constructor runs while [loadGameMapTextures] is
    still pending: it draws the three tiles, and no texture is loaded
    yet. *)
Lemma effect_draws_while_textures_load :
  let sys := Example.after Example.noCanvas
               [Lifecycle.EvNgOnInit; Lifecycle.EvResume; Lifecycle.EvResume] in
  let sys' := Example.after Example.noCanvas
                [Lifecycle.EvNgOnInit; Lifecycle.EvResume; Lifecycle.EvResume;
                 Lifecycle.EvEffect] in
  Lifecycle.phase sys
  = Lifecycle.AwaitLoadGameMapTextures (Ok ({["grass" := 3]}, {["tree" := 4]})) /\
  GameMapPixiComponent.terrainTextures (Lifecycle.component sys) = ∅ /\
  Lifecycle.texturesSettled (Lifecycle.trace sys) = false /\
  Lifecycle.step Example.noCanvas sys Lifecycle.EvEffect = Some sys' /\
  Lifecycle.trace sys'
  = Lifecycle.trace sys
    ++ [ActRemoveChildren 10; ActRemoveChildren 11;
        ActCreateNodeSprites 0 0; ActCreateNodeSprites 1 0;
        ActCreateNodeSprites 0 (-1); ActCreatePlayerIndicator 0 0] /\
  Lifecycle.texturesDone (Lifecycle.phase sys') = false.
Proof. vm_compute. repeat split. Qed.

(** A zoom-out on the mounted component: the zoom goes from 1 to 9/10,
    both containers get the scale (9/10, 9/10) and the position
    (10, 20). *)
Lemma onWheel_zoom_uniform_witness :
  let sys' := Example.after Example.noCanvas
                (Example.mount ++ [Lifecycle.EvWheel Example.wheelOut]) in
  let newZoom := GameMapPixiComponent.zoomLevel (Lifecycle.component sys') in
  let map := World.container (Lifecycle.world sys') 10 in
  let playerIndicator := World.container (Lifecycle.world sys') 11 in
  Lifecycle.reachable Example.noCanvas Example.world Example.mounted /\
  Lifecycle.step Example.noCanvas Example.mounted
    (Lifecycle.EvWheel Example.wheelOut) = Some sys' /\
  (GameMapPixiComponent.zoomLevel (Lifecycle.component Example.mounted) == 1)%Q /\
  (newZoom == 9 # 10)%Q /\
  Container.scale map = Point.mk newZoom newZoom /\
  Container.scale playerIndicator = Point.mk newZoom newZoom /\
  Container.position playerIndicator = Container.position map /\
  (Point.x (Container.position map) == 10)%Q /\
  (Point.y (Container.position map) == 20)%Q.
Proof.
  cbn zeta.
  assert (Lifecycle.step Example.noCanvas Example.mounted
            (Lifecycle.EvWheel Example.wheelOut)
          = Some (Example.after Example.noCanvas
                    (Example.mount ++ [Lifecycle.EvWheel Example.wheelOut])))
    as Hstep.
  { vm_compute. reflexivity. }
  split; [exact mounted_reachable|]. split; [exact Hstep|].
  split; [vm_compute; reflexivity|].
  destruct (onWheel_zoom_uniform Example.noCanvas Example.world _ _ _
              mounted_reachable Hstep) as [_ Hzoomed].
  destruct Hzoomed as (rm & rp & Hm & Hp & Hz & Hs & Hs' & Hpos).
  { vm_compute. discriminate. }
  vm_compute in Hm, Hp. injection Hm as <-. injection Hp as <-.
  rewrite Hs, Hs', Hpos, Hz.
  split; [vm_compute; reflexivity|]. do 3 (split; [reflexivity|]).
  split; vm_compute; reflexivity.
Defined.

(** Teardown of the mounted component: observer 5 is disconnected and
    surface 1 destroyed. *)
Lemma ngOnDestroy_releases_witness :
  let sys' := Example.after Example.noCanvas
                (Example.mount ++ [Lifecycle.EvNgOnDestroy]) in
  Lifecycle.reachable Example.noCanvas Example.world Example.mounted /\
  Lifecycle.step Example.noCanvas Example.mounted Lifecycle.EvNgOnDestroy
  = Some sys' /\
  ActDisconnect 5 ∈ Lifecycle.trace sys' /\
  ActDestroy 1 ∈ Lifecycle.trace sys' /\
  Lifecycle.connectedObservers (Lifecycle.trace sys') = [] /\
  Lifecycle.liveSurfaces (Lifecycle.trace sys') = [].
Proof.
  cbn zeta.
  assert (Lifecycle.step Example.noCanvas Example.mounted Lifecycle.EvNgOnDestroy
          = Some (Example.after Example.noCanvas
                    (Example.mount ++ [Lifecycle.EvNgOnDestroy]))) as Hstep.
  { vm_compute. reflexivity. }
  split; [exact mounted_reachable|]. split; [exact Hstep|].
  destruct (ngOnDestroy_releases Example.noCanvas Example.world _ _
              mounted_reachable Hstep) as (Hdis & Hdes & Hobs & Hlive).
  split; [apply Hdis; vm_compute; reflexivity|].
  split; [apply Hdes; vm_compute; reflexivity|]. by split.
Defined.

(** C9.  Teardown while [initializePixiApp] is pending.  [ngOnDestroy]
    finds no observer and no surface on the component and calls nothing.
    When the promise resolves afterwards, [initPixi] goes on past its
    [await] with no look at the teardown: it sets up resize observer 5
    on surface 1.  Nothing disconnects or destroys them: both are still
    there when [ngOnInit] has returned, on a component that is torn
    down and gets no further [ngOnDestroy]. *)
Example teardown_before_init_completes :
  let pending := Example.after Example.noCanvas [Lifecycle.EvNgOnInit] in
  let sys := Example.after Example.noCanvas
               [Lifecycle.EvNgOnInit; Lifecycle.EvNgOnDestroy] in
  let sys' := Example.after Example.noCanvas
                [Lifecycle.EvNgOnInit; Lifecycle.EvNgOnDestroy;
                 Lifecycle.EvResume] in
  let returned := Example.after Example.noCanvas
                    [Lifecycle.EvNgOnInit; Lifecycle.EvNgOnDestroy;
                     Lifecycle.EvResume; Lifecycle.EvResume;
                     Lifecycle.EvResume; Lifecycle.EvResume] in
  Lifecycle.phase pending = Lifecycle.AwaitInitializePixiApp (Ok 1) /\
  Lifecycle.step Example.noCanvas pending Lifecycle.EvNgOnDestroy = Some sys /\
  Lifecycle.trace sys = Lifecycle.trace pending /\
  Lifecycle.connectedObservers (Lifecycle.trace sys) = [] /\
  Lifecycle.liveSurfaces (Lifecycle.trace sys) = [] /\
  Lifecycle.step Example.noCanvas sys Lifecycle.EvResume = Some sys' /\
  Lifecycle.connectedObservers (Lifecycle.trace sys') = [5] /\
  Lifecycle.liveSurfaces (Lifecycle.trace sys') = [1] /\
  Lifecycle.phase returned = Lifecycle.Mounted /\
  Lifecycle.destroyed returned = true /\
  Lifecycle.connectedObservers (Lifecycle.trace returned) = [5] /\
  Lifecycle.liveSurfaces (Lifecycle.trace returned) = [1] /\
  Lifecycle.step Example.noCanvas returned Lifecycle.EvNgOnDestroy = None.
Proof. vm_compute. repeat split. Qed.

(** [loadGameMapTextures] succeeds and [createClaimIndicatorTextures]
    throws: the error is logged, the terrain and object textures are
    assigned all the same, the indicator textures are not. *)
Lemma loadTextures_throws_after_assigning :
  let s' := GameMapPixiComponent.loadTextures Example.noCanvas
              (GameMapPixiComponent.initial, Example.world) in
  World.trace s'.2
  = [ActArtAtlases; ActLoadGameMapTextures; ActCreateClaimIndicatorTextures;
     ActLoggerError "Failed to load textures:" "no canvas"] /\
  GameMapPixiComponent.terrainTextures s'.1 !! "grass" = Some 3 /\
  GameMapPixiComponent.objectTextures s'.1 !! "tree" = Some 4 /\
  GameMapPixiComponent.terrainTextures s'.1 ≠ ∅ /\
  GameMapPixiComponent.checkTexture s'.1 = None /\
  GameMapPixiComponent.xTexture s'.1 = None.
Proof.
  vm_compute. repeat split; try reflexivity. discriminate.
Qed.

(** Zooming in on the mounted component, already at [maxZoom], changes
    neither the component nor a container. *)
Lemma onWheel_at_limit_no_change_witness :
  let s' := GameMapPixiComponent.onWheel Example.wheelIn
              (Example.mountedComponent, Example.mountedWorld) in
  s'.1 = Example.mountedComponent /\
  World.containers s'.2 = World.containers Example.mountedWorld.
Proof.
  cbn zeta.
  apply (proj1 (onWheel_at_limit_no_change Example.wheelIn
                  Example.mountedComponent Example.mountedWorld)).
  vm_compute. reflexivity.
Defined.

(** ** A redraw, call by call *)
Section RedrawFacts.
Import GameMapPixiComponent Redraw.
Variable H : Helpers.t.

(** One call of the method [createNodeSprites] past its guard. *)
Lemma createNodeSprites_step x y nodeData (c : t) (w : World.t) rm :
  mapContainer c = Some rm ->
  exists reg,
    createNodeSprites H x y nodeData (c, w)
    = (set_nodeSprites reg c,
       World.call (ActCreateNodeSprites x y)
         (World.update rm
            (λ container,
               (Helpers.createNodeSprites H x y nodeData
                  (terrainTextures c) (objectTextures c) container
                  (checkTexture c) (xTexture c)).2) w)).
Proof.
  intros Hm. unfold createNodeSprites. rewrite Hm.
  unfold World.update at 1.
  destruct (Helpers.createNodeSprites _ _ _ _ _ _ _ _ _) as [[d|] container] eqn:Hc.
  - eexists. unfold World.update. by rewrite Hc.
  - exists (nodeSprites c). unfold World.update. rewrite Hc. by destruct c.
Qed.

(** The first loop of [updateMap]: one call per tile, in order, each on
    the map container as the call before left it. *)
Lemma spriteLoop (tiles : list MapTileData.t) (c : t) (w : World.t) rm :
  mapContainer c = Some rm ->
  let s' := foldl (λ s tile, createNodeSprites H (MapTileData.x tile)
                               (MapTileData.y tile) (MapTileData.nodeData tile) s)
                  (c, w) tiles in
  World.trace s'.2 = World.trace w ++ spriteCalls tiles /\
  World.container s'.2 rm = withSprites H c (World.container w rm) tiles /\
  (forall r, r ≠ rm -> World.container s'.2 r = World.container w r) /\
  app s'.1 = app c /\ playerIndicatorContainer s'.1 = playerIndicatorContainer c.
Proof.
  revert c w. induction tiles as [|tile tiles IH]; intros c w Hm.
  - cbn. by rewrite app_nil_r.
  - cbn [foldl].
    destruct (createNodeSprites_step (MapTileData.x tile) (MapTileData.y tile)
                (MapTileData.nodeData tile) c w rm Hm) as [reg ->].
    set (w1 := World.call _ _).
    destruct (IH (set_nodeSprites reg c) w1 Hm) as (Htr & Hrm & Hother & Ha & Hp).
    cbn zeta in *. rewrite Htr, Hrm. subst w1. split; [|split; [|split]].
    + rewrite trace_call, trace_update, <- app_assoc. done.
    + rewrite container_call, container_update_eq. done.
    + intros r Hr. rewrite (Hother r Hr), container_call.
      by rewrite container_update_ne.
    + done.
Qed.

(** The second loop: one call per tile the player stands on. *)
Lemma indicatorLoop (tiles : list MapTileData.t) (c : t) (w : World.t) rp :
  let s' := foldl (λ s tile,
                     (λ '(c, w),
                        if negb (Helpers.isAtNode H (MapTileData.nodeData tile))
                        then (c, w)
                        else (c, World.call
                                   (ActCreatePlayerIndicator (MapTileData.x tile)
                                      (MapTileData.y tile))
                                   (World.update rp
                                      (Helpers.createPlayerIndicator H
                                         (MapTileData.x tile) (MapTileData.y tile))
                                      w))) s)
                  (c, w) tiles in
  s'.1 = c /\
  World.trace s'.2 = World.trace w ++ indicatorCalls H tiles /\
  World.container s'.2 rp = withIndicators H (World.container w rp) tiles /\
  (forall r, r ≠ rp -> World.container s'.2 r = World.container w r).
Proof.
  revert w. induction tiles as [|tile tiles IH]; intros w.
  - cbn. by rewrite app_nil_r.
  - cbn [foldl]. unfold indicatorCalls, withIndicators, atNode. cbn [List.filter].
    destruct (Helpers.isAtNode H (MapTileData.nodeData tile)); cbn [negb].
    + destruct (IH (World.call
                      (ActCreatePlayerIndicator (MapTileData.x tile)
                         (MapTileData.y tile))
                      (World.update rp
                         (Helpers.createPlayerIndicator H (MapTileData.x tile)
                            (MapTileData.y tile)) w)))
        as (Hc & Htr & Hrp & Hother).
      cbn zeta in *. rewrite Hc, Htr, Hrp. split; [done|]. split; [|split].
      * rewrite trace_call, trace_update, <- app_assoc. done.
      * rewrite container_call, container_update_eq. done.
      * intros r Hr. rewrite (Hother r Hr), container_call.
        by rewrite container_update_ne.
    + apply IH.
Qed.

Lemma updatePlayerIndicators_loop mapData (c : t) (w : World.t) rp a :
  playerIndicatorContainer c = Some rp -> app c = Some a ->
  let s' := updatePlayerIndicators H mapData (c, w) in
  s'.1 = c /\
  World.trace s'.2 = World.trace w ++ indicatorCalls H (concat mapData) /\
  World.container s'.2 rp
  = withIndicators H (World.container w rp) (concat mapData) /\
  (forall r, r ≠ rp -> World.container s'.2 r = World.container w r).
Proof.
  intros Hp Ha. unfold updatePlayerIndicators. rewrite Hp, Ha.
  rewrite forEachTile_concat. apply indicatorLoop.
Qed.

(** X1.  Past its guard [updateMap] adds these calls to the trace, in
    this order, and no other recorded call: [removeChildren] on the map
    container, [removeChildren] on the player-indicator container,
    [createNodeSprites] once for each tile, row by row, and then, if the
    application exists, [createPlayerIndicator] once for each tile the
    player stands on.  ([isAtNode], asked once per tile on line 239, is
    a value the trace does not record.) *)
Theorem updateMap_calls (mapData : list (list MapTileData.t)) (c : t)
    (w : World.t) (rm rp : ContainerRef) :
  mapContainer c = Some rm ->
  playerIndicatorContainer c = Some rp ->
  World.trace (updateMap H mapData (c, w)).2
  = World.trace w
    ++ [ActRemoveChildren rm; ActRemoveChildren rp]
    ++ spriteCalls (concat mapData)
    ++ match app c with
       | Some _ => indicatorCalls H (concat mapData)
       | None => []
       end.
Proof.
  intros Hm Hp. rewrite (updateMap_unfold H mapData c w rm rp Hm Hp).
  rewrite forEachTile_concat. unfold clearMap.
  pose proof (spriteLoop (concat mapData) (set_nodeSprites ∅ c)
                (World.call (ActRemoveChildren rp)
                   (World.update rp Container.removeChildren
                      (World.call (ActRemoveChildren rm)
                         (World.update rm Container.removeChildren w))))
                rm Hm) as (Htr & _ & _ & Ha & Hp').
  cbn zeta in *.
  destruct (foldl _ _ (concat mapData)) as [c1 w1]. cbn [fst snd] in *.
  cbn [app playerIndicatorContainer set_nodeSprites] in Ha, Hp'.
  destruct (app c) as [a|] eqn:Happ.
  - destruct (updatePlayerIndicators_loop mapData c1 w1 rp a)
      as (_ & Htr' & _); [congruence | done |].
    rewrite Htr', Htr.
    repeat first [rewrite trace_call | rewrite trace_update
                 | rewrite <- app_assoc].
    done.
  - unfold updatePlayerIndicators. rewrite Hp', Hp, Ha. cbn [snd].
    rewrite Htr, app_nil_r.
    repeat first [rewrite trace_call | rewrite trace_update
                 | rewrite <- app_assoc].
    done.
Qed.

(** X2.  When the two containers are different objects, a redraw keeps
    the two layers apart: the map container ends as the emptied map
    container with the sprite helper run over every tile, the
    player-indicator container as the emptied one with the indicator
    helper run over the tiles the player stands on, and no other
    container is touched. *)
Theorem updateMap_layers (mapData : list (list MapTileData.t)) (c : t)
    (w : World.t) (rm rp : ContainerRef) (a : Application) :
  mapContainer c = Some rm ->
  playerIndicatorContainer c = Some rp ->
  app c = Some a ->
  rm ≠ rp ->
  let w' := (updateMap H mapData (c, w)).2 in
  World.container w' rm
  = withSprites H c (Container.removeChildren (World.container w rm))
      (concat mapData) /\
  World.container w' rp
  = withIndicators H (Container.removeChildren (World.container w rp))
      (concat mapData) /\
  (forall r, r ≠ rm -> r ≠ rp -> World.container w' r = World.container w r).
Proof.
  intros Hm Hp Ha Hne. rewrite (updateMap_unfold H mapData c w rm rp Hm Hp).
  rewrite forEachTile_concat. unfold clearMap.
  pose proof (spriteLoop (concat mapData) (set_nodeSprites ∅ c)
                (World.call (ActRemoveChildren rp)
                   (World.update rp Container.removeChildren
                      (World.call (ActRemoveChildren rm)
                         (World.update rm Container.removeChildren w))))
                rm Hm) as (_ & Hrm & Hother & Ha' & Hp').
  cbn zeta in *.
  destruct (foldl _ _ (concat mapData)) as [c1 w1]. cbn [fst snd] in *.
  cbn [app playerIndicatorContainer set_nodeSprites] in Ha', Hp'.
  destruct (updatePlayerIndicators_loop mapData c1 w1 rp a)
    as (_ & _ & Hrp & Hother'); [congruence | congruence |].
  cbn zeta in *. split; [|split].
  - rewrite (Hother' rm Hne), Hrm. f_equal. by store.
  - rewrite Hrp, (Hother rp) by done. f_equal. by store.
  - intros r Hr1 Hr2. rewrite (Hother' r Hr2), (Hother r Hr1). by store.
Qed.

End RedrawFacts.

(** ** The size of the registry *)
Section RegistrySize.
Import GameMapPixiComponent Redraw.
Variable H : Helpers.t.

Lemma entries_cons tile (spriteData : option NodeSpriteData.t) log :
  entries ((tile, spriteData) :: log)
  = match spriteData with
    | Some d => (nodeKey (MapTileData.x tile) (MapTileData.y tile), d) :: entries log
    | None => entries log
    end.
Proof. by destruct spriteData. Qed.

Lemma entries_length log : length (entries log) <= length log.
Proof.
  induction log as [|[tile [d|]] log IH]; [done|..];
    rewrite entries_cons; cbn; lia.
Qed.

Lemma list_to_map_size (l : list (string * NodeSpriteData.t)) :
  size (list_to_map l : NodeSprites) <= length l.
Proof.
  induction l as [|[k d] l IH]; [by rewrite list_to_map_nil, map_size_empty|].
  rewrite list_to_map_cons, map_size_insert. destruct (_ !! k); cbn; lia.
Qed.

(** Tiles at different coordinates give entries under different keys. *)
Lemma entries_NoDup log :
  NoDup (coordinates <$> log.*1) -> NoDup (entries log).*1.
Proof.
  induction log as [|[tile [d|]] log IH]; intros Hnd.
  - constructor.
  - rewrite entries_cons. cbn in Hnd |- *. apply NoDup_cons in Hnd as [Hin Hnd].
    apply NoDup_cons. split; [|by apply IH].
    intros Hk. apply list_elem_of_fmap in Hk as ([k d'] & Heq & Hk).
    cbn in Heq. subst k. apply elem_of_entries in Hk as (tile' & Hin' & Hkey).
    apply nodeKey_inj in Hkey as [Hx Hy]. apply Hin.
    apply list_elem_of_fmap. exists tile'. split.
    + unfold coordinates. by rewrite Hx, Hy.
    + apply list_elem_of_fmap. by exists (tile', Some d').
  - rewrite entries_cons. cbn in Hnd. apply NoDup_cons in Hnd as [_ Hnd].
    by apply IH.
Qed.

(** X3.  After [updateMap] the registry never has more entries than the
    map data has tiles; when no two tiles of the map data share their
    coordinates it has exactly one entry for each tile sprite creation
    returned data for. *)
Theorem updateMap_registry_size (mapData : list (list MapTileData.t)) (c : t)
    (w : World.t) (rm rp : ContainerRef) :
  mapContainer c = Some rm ->
  playerIndicatorContainer c = Some rp ->
  let registry := nodeSprites (updateMap H mapData (c, w)).1 in
  let log := spriteLog H (concat mapData) (clearMap rm rp (c, w)) in
  size registry <= length (concat mapData) /\
  (NoDup (coordinates <$> concat mapData) ->
   size registry = length (filter (λ r, is_Some r.2) log)).
Proof.
  intros Hm Hp registry log. subst registry.
  rewrite (updateMap_registry H mapData c w rm rp Hm Hp). fold log.
  assert (log.*1 = concat mapData) as Htiles by apply spriteLog_tiles.
  unfold registryOf. split.
  - etrans; [apply list_to_map_size|]. rewrite length_reverse.
    etrans; [apply entries_length|]. by rewrite <- Htiles, length_fmap.
  - intros Hnd. rewrite map_size_list_to_map.
    + rewrite length_reverse. clear. induction log as [|[tile [d|]] log IH];
        [done|..]; rewrite entries_cons.
      * rewrite filter_cons_True by (by eexists). cbn. by rewrite IH.
      * rewrite filter_cons_False by (by intros [? ?]). done.
    + rewrite fmap_reverse, reverse_Permutation. apply entries_NoDup.
      by rewrite Htiles.
Qed.

End RegistrySize.

(** ** Zooming in and out *)
Section ZoomSteps.
Import GameMapPixiComponent.
Local Open Scope Q_scope.

Lemma zoomDelta_in event : WheelEvent.deltaY event < 0 -> zoomDelta event = 1 # 10.
Proof.
  intros Hneg. unfold zoomDelta, Qltb.
  destruct (Qle_bool 0 (WheelEvent.deltaY event)) eqn:Hd; [|done].
  apply Qle_bool_iff in Hd. lra.
Qed.

Lemma zoomDelta_out event :
  0 <= WheelEvent.deltaY event -> zoomDelta event = - (1 # 10).
Proof.
  intros Hpos. unfold zoomDelta, Qltb.
  apply Qle_bool_iff in Hpos. by rewrite Hpos.
Qed.

Lemma clampedZoom_in event z :
  WheelEvent.deltaY event < 0 -> minZoom <= z <= maxZoom ->
  clampedZoom event z == Qmin maxZoom (z + (1 # 10)).
Proof.
  intros Hneg [Hlo Hhi]. unfold clampedZoom. rewrite (zoomDelta_in _ Hneg).
  apply Q.max_r. unfold minZoom, maxZoom in *.
  apply Q.min_glb; lra.
Qed.

Lemma clampedZoom_out event z :
  0 <= WheelEvent.deltaY event -> minZoom <= z <= maxZoom ->
  clampedZoom event z == Qmax minZoom (z - (1 # 10)).
Proof.
  intros Hpos [Hlo Hhi]. unfold clampedZoom. rewrite (zoomDelta_out _ Hpos).
  unfold minZoom, maxZoom in *.
  rewrite (Q.min_r 1 (z + - (1 # 10))) by lra. reflexivity.
Qed.

(** X4.  A wheel event with a negative [deltaY] zooms in by 1/10 and
    stops at [maxZoom]; any other one, [deltaY] zero too, zooms out by
    1/10 and stops at [minZoom]. *)
Theorem onWheel_direction (event : WheelEvent.t) (c : t) (w : World.t)
    (rm : ContainerRef) (a : Application) :
  mapContainer c = Some rm -> app c = Some a ->
  minZoom <= zoomLevel c <= maxZoom ->
  let newZoom := zoomLevel (onWheel event (c, w)).1 in
  (WheelEvent.deltaY event < 0 ->
   newZoom == Qmin maxZoom (zoomLevel c + (1 # 10)) /\ zoomLevel c <= newZoom) /\
  (0 <= WheelEvent.deltaY event ->
   newZoom == Qmax minZoom (zoomLevel c - (1 # 10)) /\ newZoom <= zoomLevel c).
Proof.
  intros Hm Ha Hz newZoom.
  pose proof (onWheel_zoom_clamped event c w rm a Hm Ha) as Hnew.
  fold newZoom in Hnew. pose proof Hz as [Hlo Hhi].
  unfold minZoom, maxZoom in Hlo, Hhi. split.
  - intros Hneg. rewrite Hnew, (clampedZoom_in event _ Hneg Hz).
    split; [reflexivity|]. unfold maxZoom. apply Q.min_glb; lra.
  - intros Hpos. rewrite Hnew, (clampedZoom_out event _ Hpos Hz).
    split; [reflexivity|]. unfold minZoom. apply Q.max_lub; lra.
Qed.

End ZoomSteps.

(** ** What a handler leaves alone *)
Section Frames.
Import GameMapPixiComponent Lifecycle Census.
Variable H : Helpers.t.
Implicit Types (sys : System).

Lemma onWheel_component event (c : t) (w : World.t) :
  (onWheel event (c, w)).1 = c \/
  (onWheel event (c, w)).1 = set_zoomLevel (clampedZoom event (zoomLevel c)) c.
Proof.
  destruct (mapContainer c) as [rm|] eqn:Hm;
    [destruct (app c) as [a|] eqn:Ha|].
  - destruct (Qeqb (clampedZoom event (zoomLevel c)) (zoomLevel c)) eqn:Heq.
    + left. unfold onWheel. rewrite Hm, Ha.
      fold (clampedZoom event (zoomLevel c)). by rewrite Heq.
    + right. by destruct (onWheel_zoomed event c w rm a Hm Ha Heq) as [-> _].
  - left. unfold onWheel. by rewrite Hm, Ha.
  - left. unfold onWheel. by rewrite Hm.
Qed.

Lemma draws_component s s' :
  draws s s' ->
  zoomLevel s'.1 = zoomLevel s.1 /\ textureFields s'.1 = textureFields s.1 /\
  handles s'.1 = handles s.1.
Proof. intros [-> _]. done. Qed.

Lemma loadTextures_resume_component promise (s : State) :
  zoomLevel (loadTextures_resume H promise s).1 = zoomLevel s.1 /\
  nodeSprites (loadTextures_resume H promise s).1 = nodeSprites s.1 /\
  handles (loadTextures_resume H promise s).1 = handles s.1.
Proof.
  destruct s as [c w].
  unfold loadTextures_resume. destruct promise as [textures|error]; [|done].
  by destruct (Helpers.createClaimIndicatorTextures H).
Qed.

Lemma initPixi_resume_component a (s : State) :
  zoomLevel (initPixi_resume H a s).1 = zoomLevel s.1 /\
  nodeSprites (initPixi_resume H a s).1 = nodeSprites s.1 /\
  textureFields (initPixi_resume H a s).1 = textureFields s.1.
Proof. by destruct s. Qed.

Lemma loadTextures_call_component (s : State) :
  (loadTextures_call H s).1.1 = s.1.
Proof.
  destruct s as [c w]. unfold loadTextures_call.
  by destruct (Helpers.artAtlases H).
Qed.

(** What one step does to the component. *)
Lemma step_component sys e sys' :
  step H sys e = Some sys' ->
  (zoomLevel (component sys') = zoomLevel (component sys) \/
   exists event, e = EvWheel event /\
     zoomLevel (component sys')
     = clampedZoom event (zoomLevel (component sys))) /\
  (textureFields (component sys') = textureFields (component sys) \/
   e = EvResume /\ exists promise, phase sys = AwaitLoadGameMapTextures promise) /\
  (nodeSprites (component sys') = nodeSprites (component sys) \/
   e = EvEffect \/ e = EvResume /\ phase sys = AwaitLoadTextures) /\
  (handles (component sys') = handles (component sys) \/
   e = EvResume /\ exists a, phase sys = AwaitInitializePixiApp (Ok a)).
Proof.
  intros Hstep. destruct sys as [s p d].
  unfold component. cbn [state phase].
  destruct e; cbn [step state phase destroyed] in Hstep.
  - destruct p, d; try done. destruct s as [c w].
    cbn in Hstep. injection Hstep as <-. cbn. auto.
  - unfold resume in Hstep. cbn [state phase destroyed] in Hstep.
    destruct p as [|[a|error]| |promise| | |]; try done.
    + destruct (initPixi_resume_component a s) as (Hz & Hn & Ht).
      destruct (initPixi_resume H a s) as [c' w'].
      injection Hstep as <-. cbn [state fst] in *. eauto 10.
    + injection Hstep as <-. cbn. auto.
    + pose proof (loadTextures_call_component s) as Hc.
      destruct (loadTextures_call H s) as [[c' w'] pending].
      injection Hstep as <-. cbn [state fst] in *. subst c'. auto.
    + destruct (loadTextures_resume_component promise s) as (Hz & Hn & Hh).
      destruct (loadTextures_resume H promise s) as [c' w'].
      injection Hstep as <-. cbn [state fst] in *. eauto 10.
    + destruct (draws_component _ _ (updateMap_draws H
                  (MapGridData.tiles (map H s.2)) s)) as (Hz & Ht & Hh).
      destruct (updateMap H _ s) as [c' w'].
      injection Hstep as <-. cbn [state fst] in *. auto 10.
  - destruct d; [done|].
    destruct (draws_component _ _ (effect_draws H s)) as (Hz & Ht & Hh).
    destruct (effect H s) as [c' w'].
    injection Hstep as <-. cbn [state fst] in *. auto 10.
  - destruct d; [done|]. destruct (wheelListening _); [|done].
    destruct s as [c w].
    pose proof (onWheel_component event c w) as Hc.
    destruct (onWheel event (c, w)) as [c' w'].
    injection Hstep as <-. cbn [state fst] in *.
    destruct Hc as [->| ->]; [auto 10|].
    split; [right; by exists event|]. auto.
  - destruct d; [done|].
    assert ((ngOnDestroy s).1 = s.1) as Hc by by destruct s.
    destruct (ngOnDestroy s) as [c' w'].
    injection Hstep as <-. cbn [state fst] in *. subst c'. auto.
  - injection Hstep as <-. cbn. auto.
  - injection Hstep as <-. cbn. auto.
  - injection Hstep as <-. cbn. auto.
  - injection Hstep as <-. cbn. auto.
Qed.

(** Where a step takes [ngOnInit], and whether the component is torn
    down. *)
Lemma step_phase sys e sys' :
  step H sys e = Some sys' ->
  match e with
  | EvNgOnInit =>
      phase sys = Constructed /\
      exists promise, phase sys' = AwaitInitializePixiApp promise
  | EvResume =>
      match phase sys with
      | AwaitInitializePixiApp (Ok _) => phase sys' = AwaitInitPixi
      | AwaitInitializePixiApp (Throw _) => phase sys' = Rejected
      | AwaitInitPixi =>
          phase sys' = match Outcome.loadPromise H with
                       | Some promise => AwaitLoadGameMapTextures promise
                       | None => AwaitLoadTextures
                       end
      | AwaitLoadGameMapTextures _ => phase sys' = AwaitLoadTextures
      | AwaitLoadTextures => phase sys' = Mounted
      | Constructed | Mounted | Rejected => False
      end
  | _ => phase sys' = phase sys
  end /\
  match e with
  | EvNgOnDestroy => destroyed sys = false /\ destroyed sys' = true
  | _ => destroyed sys' = destroyed sys
  end.
Proof.
  intros Hstep. destruct sys as [s p d].
  destruct e; cbn [step state phase destroyed] in Hstep.
  - destruct p, d; try done. destruct s as [c w].
    cbn in Hstep. injection Hstep as <-. cbn. eauto.
  - unfold resume in Hstep. cbn [state phase destroyed] in Hstep.
    destruct p as [|[a|error]| |promise| | |]; try done;
      try (injection Hstep as <-; done).
    destruct s as [c w]. unfold loadTextures_call in Hstep.
    unfold Outcome.loadPromise. cbn [phase destroyed].
    destruct (Helpers.artAtlases H); injection Hstep as <-; done.
  - destruct d; [done|]. injection Hstep as <-. done.
  - destruct d; [done|]. destruct (wheelListening _); [|done].
    injection Hstep as <-. done.
  - destruct d; [done|]. injection Hstep as <-. done.
  - injection Hstep as <-. done.
  - injection Hstep as <-. done.
  - injection Hstep as <-. done.
  - injection Hstep as <-. done.
Qed.

(** X6.  Each field of the component has its writers: the zoom level is
    written by a wheel event only, the four texture fields only when the
    promise of [loadGameMapTextures] settles, the sprite registry only by
    the effect and by the [updateMap] call of [ngOnInit], and the
    references to the surface, the containers and the observer only when
    the promise of [initializePixiApp] resolves. *)
Theorem step_writers (sys sys' : System) (e : Event) :
  step H sys e = Some sys' ->
  (zoomLevel (component sys') ≠ zoomLevel (component sys) ->
   exists event, e = EvWheel event) /\
  (textureFields (component sys') ≠ textureFields (component sys) ->
   e = EvResume /\ exists promise, phase sys = AwaitLoadGameMapTextures promise) /\
  (nodeSprites (component sys') ≠ nodeSprites (component sys) ->
   e = EvEffect \/ e = EvResume /\ phase sys = AwaitLoadTextures) /\
  (handles (component sys') ≠ handles (component sys) ->
   e = EvResume /\ exists a, phase sys = AwaitInitializePixiApp (Ok a)).
Proof.
  intros Hstep.
  destruct (step_component _ _ _ Hstep) as (Hz & Ht & Hn & Hh).
  split; [|split; [|split]]; intros Hne.
  - destruct Hz as [Hz|(event & -> & _)]; [done | by exists event].
  - by destruct Ht.
  - by destruct Hn.
  - by destruct Hh.
Qed.

(** *** Before [initPixi] is over *)

Lemma early_component w0 sys :
  reachable H w0 sys -> early (phase sys) = true ->
  component sys = initial /\ wheelListening (trace sys) = false.
Proof.
  intros Hr Hearly. pose proof (reachable_invariant H _ _ Hr) as Hinv.
  split; [by apply (inv_early _ Hinv) | by apply early_not_listening].
Qed.

Lemma early_idle w0 sys :
  reachable H w0 sys -> early (phase sys) = true ->
  effect H (state sys) = state sys /\ ngOnDestroy (state sys) = state sys.
Proof.
  intros Hr Hearly. destruct (early_component _ _ Hr Hearly) as [Hc _].
  unfold component in Hc. destruct (state sys) as [c w].
  cbn in Hc. by subst c.
Qed.

(** X7.  Until the promise of [initializePixiApp] has resolved the
    component is idle: a run of the effect reads the map data on line 87
    and stops at the guard of line 88, so it changes no field and no
    container and adds no recorded call; no wheel event arrives, as the
    listener is not there yet; and [ngOnDestroy] has nothing to release
    and adds no recorded call either. *)
Theorem idle_before_initPixi (w0 : World.t) (sys : System) :
  reachable H w0 sys -> early (phase sys) = true -> destroyed sys = false ->
  step H sys EvEffect = Some sys /\
  (forall event, step H sys (EvWheel event) = None) /\
  step H sys EvNgOnDestroy = Some (mkSystem (state sys) (phase sys) true).
Proof.
  intros Hr Hearly Hd.
  destruct (early_idle _ _ Hr Hearly) as [He Hn].
  destruct (early_component _ _ Hr Hearly) as [_ Hw].
  destruct sys as [s p d]. cbn in Hd. subst d.
  cbn [step state phase destroyed] in *.
  rewrite He, Hn, Hw. done.
Qed.

(** *** A rejected [initPixi] *)

Lemma rejected_step w0 sys e sys' :
  reachable H w0 sys -> phase sys = Rejected -> step H sys e = Some sys' ->
  phase sys' = Rejected /\ trace sys' = trace sys.
Proof.
  intros Hr Hp Hstep.
  assert (early (phase sys) = true) as Hearly by by rewrite Hp.
  destruct (early_idle _ _ Hr Hearly) as [He Hn].
  destruct (early_component _ _ Hr Hearly) as [_ Hw].
  destruct sys as [s p d]. cbn in Hp. subst p.
  destruct e; cbn [step resume state phase destroyed] in *; try done.
  - destruct d; [done|]. rewrite He in Hstep. by injection Hstep as <-.
  - destruct d; [done|]. by rewrite Hw in Hstep.
  - destruct d; [done|]. rewrite Hn in Hstep. by injection Hstep as <-.
  - by injection Hstep as <-.
  - by injection Hstep as <-.
  - by injection Hstep as <-.
  - by injection Hstep as <-.
Qed.

(** X8.  When the promise of [initializePixiApp] rejects, [ngOnInit] is
    over for good: whatever happens afterwards, the component keeps the
    fields of its initialisers, draws nothing, loads no texture, and the
    call of [initializePixiApp] stays the only recorded call: the effect
    still reads the map data on each run, and stops at its guard. *)
Theorem rejected_for_good (w0 : World.t) (sys sys' : System)
    (events : list Event) :
  reachable H w0 sys -> phase sys = Rejected ->
  run H sys events = Some sys' ->
  phase sys' = Rejected /\ component sys' = initial /\
  trace sys' = trace sys /\
  exists nativeElement, trace sys = [initCall nativeElement].
Proof.
  intros Hr Hp Hrun.
  assert (phase sys' = Rejected /\ trace sys' = trace sys) as [Hp' Htr].
  { revert sys Hr Hp Hrun. induction events as [|e events IH];
      intros sys Hr Hp Hrun.
    - by injection Hrun as <-.
    - cbn in Hrun. destruct (step H sys e) as [sys1|] eqn:Hstep; [|done].
      destruct (rejected_step _ _ _ _ Hr Hp Hstep) as [Hp1 Htr1].
      destruct (IH sys1) as [Hp' Htr']; try done.
      + by apply (reachable_step H w0 sys e).
      + split; [done|]. by rewrite Htr'. }
  pose proof (reachable_invariant H _ _ (run_reachable H _ _ _ _ Hr Hrun))
    as Hinv.
  destruct (inv_early _ Hinv) as [Hc Hcalls]; [by rewrite Hp'|].
  rewrite Hp', Htr in Hcalls. done.
Qed.

(** The handler a step runs. *)
Lemma step_state sys e sys' :
  step H sys e = Some sys' ->
  state sys' =
  match e with
  | EvNgOnInit => (initPixi_call H (state sys)).1
  | EvResume =>
      match phase sys with
      | AwaitInitializePixiApp (Ok a) => initPixi_resume H a (state sys)
      | AwaitInitPixi => (loadTextures_call H (state sys)).1
      | AwaitLoadGameMapTextures promise =>
          loadTextures_resume H promise (state sys)
      | AwaitLoadTextures =>
          updateMap H (MapGridData.tiles (map H (state sys).2)) (state sys)
      | _ => state sys
      end
  | EvEffect => effect H (state sys)
  | EvWheel event => onWheel event (state sys)
  | EvNgOnDestroy => ngOnDestroy (state sys)
  | EvGamestate g => ((state sys).1, World.set_gamestate g (state sys).2)
  | EvWindow tw th => ((state sys).1, World.set_window tw th (state sys).2)
  | EvLayout rect =>
      ((state sys).1, World.set_boundingClientRect rect (state sys).2)
  | EvContainers h => ((state sys).1, World.set_containers h (state sys).2)
  end.
Proof.
  intros Hstep. destruct sys as [s p d].
  destruct e; cbn [step state phase destroyed] in Hstep |- *.
  - destruct p, d; try done. destruct (initPixi_call H s) as [s1 promise].
    by injection Hstep as <-.
  - unfold resume in Hstep. cbn [state phase destroyed] in Hstep.
    destruct p as [|[a|error]| |promise| | |]; try done;
      try (by injection Hstep as <-).
    destruct (loadTextures_call H s) as [s1 pending]. by injection Hstep as <-.
  - destruct d; [done|]. by injection Hstep as <-.
  - destruct d; [done|]. destruct (wheelListening _); [|done].
    by injection Hstep as <-.
  - destruct d; [done|]. by injection Hstep as <-.
  - by injection Hstep as <-.
  - by injection Hstep as <-.
  - by injection Hstep as <-.
  - by injection Hstep as <-.
Qed.

(** *** The textures the component draws with *)

Lemma loadTextures_resume_fields promise (s : State) :
  textureFields s.1 = Outcome.noTextures ->
  Outcome.loadPromise H = Some promise ->
  textureFields (loadTextures_resume H promise s).1 = Outcome.loadedFields H.
Proof.
  destruct s as [c w]. intros Hf Hp. unfold Outcome.loadedFields. rewrite Hp.
  unfold loadTextures_resume. destruct promise as [textures|error]; [|done].
  injection Hf as _ _ Hc Hx.
  destruct (Helpers.createClaimIndicatorTextures H) as [claimTextures|error];
    unfold textureFields; cbn; [done | by rewrite Hc, Hx].
Qed.

(** X10.  The four texture fields are those of the class initialisers
    until [loadTextures] has returned, and from then on what that one
    run of [loadTextures] left: no handler writes them again.  While
    [ngOnInit] waits for [loadGameMapTextures], the promise is the one
    line 182 made. *)
Theorem textures_by_phase (w0 : World.t) (sys : System) :
  reachable H w0 sys ->
  textureFields (component sys)
  = (if texturesDone (phase sys) then Outcome.loadedFields H
     else Outcome.noTextures) /\
  (forall promise, phase sys = AwaitLoadGameMapTextures promise ->
     Outcome.loadPromise H = Some promise).
Proof.
  induction 1 as [|sys e sys' Hr [IHf IHp] Hstep]; [done|].
  destruct (step_phase _ _ _ Hstep) as [Hph _].
  destruct (step_component _ _ _ Hstep) as (_ & Ht & _).
  pose proof (step_state _ _ _ Hstep) as Hs.
  destruct e;
    try (rewrite Hph; destruct Ht as [->|[[=] _]]; done).
  - destruct Hph as [Hp (promise & Hp')]. rewrite Hp in IHf. rewrite Hp'.
    destruct Ht as [->|[[=] _]]. done.
  - destruct (phase sys) as [|[a|error]| |promise| | |] eqn:Hp; try done;
      rewrite Hph; try (destruct Ht as [->|[_ [? [=]]]]; done).
    + destruct Ht as [->|[_ [? [=]]]].
      unfold Outcome.loadedFields.
      destruct (Outcome.loadPromise H) as [promise|]; [|done].
      split; [done|]. by intros promise' [= <-].
    + unfold component. rewrite Hs. split; [|done].
      apply loadTextures_resume_fields; [exact IHf | by apply IHp].
Qed.

(** *** How often each helper is called *)

Lemma ofKind_app k (tr new : list Action) :
  ofKind k (tr ++ new) = ofKind k tr ++ ofKind k new.
Proof. apply List.filter_app. Qed.

Lemma ofKind_step k (sk : option Kind) (new : list Action) :
  Forall (λ a, Some (kind a) = sk) new ->
  ofKind k new = if decide (sk = Some k) then new else [].
Proof.
  induction 1 as [|a new Ha _ IH]; [by destruct (decide _)|].
  unfold ofKind in *. cbn [List.filter]. rewrite IH.
  destruct (decide (sk = Some k)) as [->|Hne].
  - injection Ha as Ha. by rewrite bool_decide_eq_true_2.
  - rewrite bool_decide_eq_false_2; [done|]. intros <-. by apply Hne.
Qed.

Lemma loadTextures_call_trace (s : State) :
  World.trace (loadTextures_call H s).1.2
  = World.trace s.2
    ++ match Helpers.artAtlases H with
       | Ok _ => loadingCalls
       | Throw error => [ActArtAtlases; failed error]
       end.
Proof.
  destruct s as [c w]. unfold loadTextures_call.
  destruct (Helpers.artAtlases H); cbn; by rewrite <- app_assoc.
Qed.

Lemma loadTextures_resume_trace promise (s : State) :
  World.trace (loadTextures_resume H promise s).2
  = World.trace s.2
    ++ match promise with
       | Throw error => [failed error]
       | Ok _ =>
           match Helpers.createClaimIndicatorTextures H with
           | Ok _ => [ActCreateClaimIndicatorTextures]
           | Throw error => [ActCreateClaimIndicatorTextures; failed error]
           end
       end.
Proof.
  destruct s as [c w]. unfold loadTextures_resume.
  destruct promise as [textures|error]; [|done].
  destruct (Helpers.createClaimIndicatorTextures H); cbn;
    by rewrite <- ?app_assoc.
Qed.

(** The texture calls a phase allows. *)
Lemma late_textures_eq sys sys' :
  phase sys' = phase sys \/
  (phase sys = AwaitLoadTextures /\ phase sys' = Mounted) ->
  ofKind KTexture (trace sys') = ofKind KTexture (trace sys) ->
  match phase sys with
  | AwaitInitPixi => ofKind KTexture (trace sys) = []
  | AwaitLoadGameMapTextures _ => ofKind KTexture (trace sys) = loadingCalls
  | _ => loadedCalls (ofKind KTexture (trace sys))
  end ->
  match phase sys' with
  | AwaitInitPixi => ofKind KTexture (trace sys') = []
  | AwaitLoadGameMapTextures _ => ofKind KTexture (trace sys') = loadingCalls
  | _ => loadedCalls (ofKind KTexture (trace sys'))
  end.
Proof. intros [->|[-> ->]] ->; done. Qed.

(** A step that makes no call of the four kinds keeps the census. *)
Lemma late_quiet sys sys' new :
  Late sys -> trace sys' = trace sys ++ new ->
  (forall k, k ≠ KRender -> k ≠ KWheel -> ofKind k new = []) ->
  phase sys' = phase sys \/
  (phase sys = AwaitLoadTextures /\ phase sys' = Mounted) ->
  destroyed sys' = destroyed sys ->
  Late sys'.
Proof.
  intros [Hi Hs Ht Hd] Htr Hnew Hp Hd'.
  assert (forall k, k ≠ KRender -> k ≠ KWheel ->
            ofKind k (trace sys') = ofKind k (trace sys)) as Hsame.
  { intros k Hk1 Hk2. by rewrite Htr, ofKind_app, Hnew, app_nil_r. }
  split.
  - by rewrite Hsame.
  - by rewrite Hsame.
  - apply (late_textures_eq sys); [done | by apply Hsame | done].
  - by rewrite Hd', Hsame.
Qed.

Lemma late_step sys e sys' :
  Invariant sys -> (early (phase sys) = false -> Late sys) ->
  step H sys e = Some sys' ->
  early (phase sys') = false -> Late sys'.
Proof.
  intros Hinv IH Hstep Hlate'.
  destruct (step_phase _ _ _ Hstep) as [Hph Hd].
  destruct (step_calls H _ _ _ Hstep) as (new & Htr & Hall).
  pose proof (step_state _ _ _ Hstep) as Hs.
  assert (forall k, ofKind k new
            = if decide (stepKind (phase sys) e = Some k) then new else [])
    as Hk by (intros k; by apply ofKind_step).
  destruct (early (phase sys)) eqn:Hearly.
  - (* [initPixi] gets past its [await] *)
    destruct (inv_early _ Hinv Hearly) as [Hc Hcalls].
    destruct e; try (rewrite Hph, Hearly in Hlate'; done).
    { destruct Hph as [_ [promise Hp']]. by rewrite Hp' in Hlate'. }
    destruct (phase sys) as [|[a|error]| |promise| | |] eqn:Hp; try done;
      [|by rewrite Hph in Hlate'].
    destruct Hcalls as [nativeElement Hcalls].
    destruct (state sys) as [c w] eqn:Hstate.
    destruct (initPixi_resume_calls H a c w) as (_ & _ & Hsetup).
    assert (trace sys' = [initCall nativeElement]
              ++ setupCalls a
                   (Helpers.setupResponsiveCanvas H a (World.nativeElement w))
                   (Helpers.createGameMapContainers H a).1
                   (Helpers.createGameMapContainers H a).2
                   (nodeWidth w) (nodeHeight w)) as Htr'.
    { unfold Lifecycle.trace, world in *. rewrite Hs, Hstate in *.
      cbn [snd] in *. by rewrite Hsetup, Hcalls. }
    split; rewrite Htr'.
    + by exists nativeElement.
    + by eexists _, _, _, _, _, _.
    + by rewrite Hph.
    + rewrite Hd. by destruct (destroyed sys); [left|].
  - specialize (IH eq_refl). pose proof IH as [Hi Hsu Ht Hdn].
    destruct e.
    + destruct Hph as [Hp _]. by rewrite Hp in Hearly.
    + destruct (phase sys) as [|[a|error]| |promise| | |] eqn:Hp; try done.
      * (* [loadTextures] is called *)
        pose proof (loadTextures_call_trace (state sys)) as Hload.
        rewrite <- Hs in Hload. fold (world sys') (trace sys') in Hload.
        fold (world sys) (trace sys) in Hload.
        split.
        -- by rewrite Htr, ofKind_app, Hk, app_nil_r.
        -- by rewrite Htr, ofKind_app, Hk, app_nil_r.
        -- rewrite Hload, ofKind_app, Ht, Hph. unfold Outcome.loadPromise.
           destruct (Helpers.artAtlases H) as [artAtlases|error]; [done|].
           left. by exists error.
        -- by rewrite Hd, Htr, ofKind_app, Hk, app_nil_r.
      * (* the promise of [loadGameMapTextures] settles *)
        pose proof (loadTextures_resume_trace promise (state sys)) as Hload.
        rewrite <- Hs in Hload. fold (world sys') (trace sys') in Hload.
        fold (world sys) (trace sys) in Hload.
        split.
        -- by rewrite Htr, ofKind_app, Hk, app_nil_r.
        -- by rewrite Htr, ofKind_app, Hk, app_nil_r.
        -- rewrite Hload, ofKind_app, Ht, Hph.
           destruct promise as [textures|error];
             [destruct (Helpers.createClaimIndicatorTextures H)
                as [claimTextures|error]|].
           ++ right. right. by left.
           ++ right. right. right. by exists error.
           ++ right. left. by exists error.
        -- by rewrite Hd, Htr, ofKind_app, Hk, app_nil_r.
      * apply (late_quiet sys sys' new); [done | done | | by right | done].
        intros k Hk1 Hk2. rewrite Hk. cbn. case_decide; congruence.
    + apply (late_quiet sys sys' new); [done | done | | by left | done].
      intros k Hk1 Hk2. rewrite Hk. cbn. case_decide; congruence.
    + apply (late_quiet sys sys' new); [done | done | | by left | done].
      intros k Hk1 Hk2. rewrite Hk. cbn. case_decide; congruence.
    + (* [ngOnDestroy] *)
      destruct Hd as [Hd Hd']. rewrite Hd in Hdn.
      destruct (inv_late _ Hinv Hearly)
        as (a & rm & rp & o & Ha & _ & _ & Ho & _).
      unfold component in Ha, Ho.
      destruct (state sys) as [c w] eqn:Hstate.
      destruct (ngOnDestroy_calls c w) as [_ Hcalls].
      cbn [fst] in Ha, Ho. rewrite Ho, Ha in Hcalls.
      assert (trace sys' = trace sys ++ [ActDisconnect o; ActDestroy a])
        as Htr'.
      { unfold Lifecycle.trace, world. by rewrite Hs, Hstate, Hcalls. }
      split; rewrite Htr', ofKind_app, ?app_nil_r; try done.
      * by rewrite Hph.
      * rewrite Hd', Hdn. right. by exists o, a.
    + apply (late_quiet sys sys' new); [done | done | | by left | done].
      intros k Hk1 Hk2. rewrite Hk. cbn. case_decide; congruence.
    + apply (late_quiet sys sys' new); [done | done | | by left | done].
      intros k Hk1 Hk2. rewrite Hk. cbn. case_decide; congruence.
    + apply (late_quiet sys sys' new); [done | done | | by left | done].
      intros k Hk1 Hk2. rewrite Hk. cbn. case_decide; congruence.
    + apply (late_quiet sys sys' new); [done | done | | by left | done].
      intros k Hk1 Hk2. rewrite Hk. cbn. case_decide; congruence.
Qed.

(** X11.  The recorded calls over the whole life of a component,
    whatever the order of the events.  Until [initPixi] is past its
    [await] the trace is empty or holds the one call of
    [initializePixiApp].  From then on it holds that call once; the
    set-up of the surface once, with one resize observer, one call of
    [setupMapDragging] and one wheel listener; the calls of one pass
    through the [try] block of [loadTextures], never retried and with
    one error logged at most; and of [disconnect] and [destroy] either
    nothing or one pair.  (Drawing calls and [preventDefault] are not
    counted here.) *)
Theorem calls_census (w0 : World.t) (sys : System) :
  reachable H w0 sys ->
  if early (phase sys)
  then trace sys = [] \/ exists nativeElement, trace sys = [initCall nativeElement]
  else Late sys.
Proof.
  intros Hr.
  assert (early (phase sys) = false -> Late sys) as Hlate.
  { induction Hr as [|sys e sys' Hr IH Hstep]; [done|].
    apply (late_step sys e); [by apply (reachable_invariant H w0) | done..]. }
  destruct (early (phase sys)) eqn:Hearly; [|by apply Hlate].
  destruct (inv_early _ (reachable_invariant H _ _ Hr) Hearly) as [_ Hcalls].
  destruct (phase sys); first [by left | by right].
Qed.

End Frames.

(** ** Wheel events in a row, on doubles *)
Section NotchFacts.
Import Binary64 Notches.


End NotchFacts.

(** ** The properties above on the small world *)

(** Redrawing the mounted example: both containers are emptied, the three
    tiles are drawn in order and the player is marked on tile (0, 0). *)
Lemma updateMap_calls_witness :
  let c := Example.mountedComponent in
  let w := Example.mountedWorld in
  GameMapPixiComponent.mapContainer c = Some 10 /\
  GameMapPixiComponent.playerIndicatorContainer c = Some 11 /\
  World.trace (GameMapPixiComponent.updateMap Example.noCanvas Example.tiles (c, w)).2
  = World.trace w
    ++ [ActRemoveChildren 10; ActRemoveChildren 11;
        ActCreateNodeSprites 0 0; ActCreateNodeSprites 1 0;
        ActCreateNodeSprites 0 (-1); ActCreatePlayerIndicator 0 0].
Proof.
  cbn zeta.
  assert (GameMapPixiComponent.mapContainer Example.mountedComponent = Some 10)
    as Hm by (vm_compute; reflexivity).
  assert (GameMapPixiComponent.playerIndicatorContainer Example.mountedComponent
          = Some 11) as Hp by (vm_compute; reflexivity).
  split; [exact Hm|]. split; [exact Hp|].
  rewrite (updateMap_calls Example.noCanvas Example.tiles
             Example.mountedComponent Example.mountedWorld 10 11 Hm Hp).
  f_equal.
Defined.

(** After the redraw the map container holds the three sprites and the
    indicator container the one indicator. *)
Lemma updateMap_layers_witness :
  let c := Example.mountedComponent in
  let w := Example.mountedWorld in
  let w' := (GameMapPixiComponent.updateMap Example.noCanvas Example.tiles (c, w)).2 in
  GameMapPixiComponent.mapContainer c = Some 10 /\
  GameMapPixiComponent.playerIndicatorContainer c = Some 11 /\
  GameMapPixiComponent.app c = Some 1 /\
  10 ≠ 11 /\
  Container.children (World.container w' 10) = [107; 108; 109] /\
  Container.children (World.container w' 11) = [99].
Proof.
  cbn zeta.
  assert (GameMapPixiComponent.mapContainer Example.mountedComponent = Some 10)
    as Hm by (vm_compute; reflexivity).
  assert (GameMapPixiComponent.playerIndicatorContainer Example.mountedComponent
          = Some 11) as Hp by (vm_compute; reflexivity).
  assert (GameMapPixiComponent.app Example.mountedComponent = Some 1)
    as Ha by (vm_compute; reflexivity).
  assert (10 ≠ 11) as Hne by discriminate.
  do 4 (split; [done|]).
  destruct (updateMap_layers Example.noCanvas Example.tiles
              Example.mountedComponent Example.mountedWorld 10 11 1
              Hm Hp Ha Hne) as (-> & -> & _).
  split; vm_compute; reflexivity.
Defined.

(** The registry of the redrawn example has three entries, one per
    tile. *)
Lemma updateMap_registry_size_witness :
  let c := Example.mountedComponent in
  let w := Example.mountedWorld in
  GameMapPixiComponent.mapContainer c = Some 10 /\
  GameMapPixiComponent.playerIndicatorContainer c = Some 11 /\
  NoDup (Redraw.coordinates <$> concat Example.tiles) /\
  size (GameMapPixiComponent.nodeSprites
          (GameMapPixiComponent.updateMap Example.noCanvas Example.tiles (c, w)).1)
  = 3.
Proof.
  cbn zeta.
  assert (GameMapPixiComponent.mapContainer Example.mountedComponent = Some 10)
    as Hm by (vm_compute; reflexivity).
  assert (GameMapPixiComponent.playerIndicatorContainer Example.mountedComponent
          = Some 11) as Hp by (vm_compute; reflexivity).
  assert (NoDup (Redraw.coordinates <$> concat Example.tiles)) as Hnd.
  { apply NoDup_ListNoDup. vm_compute.
    repeat (constructor; [intros Hin; cbn in Hin; intuition discriminate|]).
    constructor. }
  do 3 (split; [done|]).
  destruct (updateMap_registry_size Example.noCanvas Example.tiles
              Example.mountedComponent Example.mountedWorld 10 11 Hm Hp)
    as [_ Hsize].
  rewrite (Hsize Hnd). vm_compute. reflexivity.
Defined.

(** A wheel event with [deltaY] 3 on the mounted example zooms out from 1
    to 9/10. *)
Lemma onWheel_direction_witness :
  let c := Example.mountedComponent in
  let w := Example.mountedWorld in
  GameMapPixiComponent.mapContainer c = Some 10 /\
  GameMapPixiComponent.app c = Some 1 /\
  (GameMapPixiComponent.minZoom <= GameMapPixiComponent.zoomLevel c
   <= GameMapPixiComponent.maxZoom)%Q /\
  (GameMapPixiComponent.zoomLevel
     (GameMapPixiComponent.onWheel Example.wheelOut (c, w)).1 == 9 # 10)%Q.
Proof.
  cbn zeta.
  assert (GameMapPixiComponent.mapContainer Example.mountedComponent = Some 10)
    as Hm by (vm_compute; reflexivity).
  assert (GameMapPixiComponent.app Example.mountedComponent = Some 1)
    as Ha by (vm_compute; reflexivity).
  assert (GameMapPixiComponent.minZoom
          <= GameMapPixiComponent.zoomLevel Example.mountedComponent
          <= GameMapPixiComponent.maxZoom)%Q as Hz
    by (vm_compute; split; discriminate).
  do 3 (split; [done|]).
  destruct (onWheel_direction Example.wheelOut Example.mountedComponent
              Example.mountedWorld 10 1 Hm Ha Hz) as [_ Hout].
  destruct Hout as [Hnew _]; [vm_compute; discriminate|].
  rewrite Hnew. vm_compute. reflexivity.
Defined.


(** A wheel event on the mounted example: the step writes the zoom level,
    and its event is a wheel event. *)
Lemma step_writers_witness :
  let sys := Example.mounted in
  let e := Lifecycle.EvWheel Example.wheelOut in
  let sys' := Example.after Example.noCanvas (Example.mount ++ [e]) in
  Lifecycle.step Example.noCanvas sys e = Some sys' /\
  GameMapPixiComponent.zoomLevel (Lifecycle.component sys')
  ≠ GameMapPixiComponent.zoomLevel (Lifecycle.component sys) /\
  exists event, e = Lifecycle.EvWheel event.
Proof.
  cbn zeta.
  assert (Lifecycle.step Example.noCanvas Example.mounted
            (Lifecycle.EvWheel Example.wheelOut)
          = Some (Example.after Example.noCanvas
                    (Example.mount ++ [Lifecycle.EvWheel Example.wheelOut])))
    as Hstep by (vm_compute; reflexivity).
  assert (GameMapPixiComponent.zoomLevel
            (Lifecycle.component
               (Example.after Example.noCanvas
                  (Example.mount ++ [Lifecycle.EvWheel Example.wheelOut])))
          ≠ GameMapPixiComponent.zoomLevel (Lifecycle.component Example.mounted))
    as Hne by (vm_compute; discriminate).
  split; [exact Hstep|]. split; [exact Hne|].
  exact (proj1 (step_writers Example.noCanvas _ _ _ Hstep) Hne).
Defined.

(** While [initializePixiApp] is pending in the example, the effect and
    [ngOnDestroy] call nothing and no wheel event arrives. *)
Lemma idle_before_initPixi_witness :
  let sys := Example.after Example.noCanvas [Lifecycle.EvNgOnInit] in
  Lifecycle.reachable Example.noCanvas Example.world sys /\
  Lifecycle.early (Lifecycle.phase sys) = true /\
  Lifecycle.destroyed sys = false /\
  Lifecycle.step Example.noCanvas sys Lifecycle.EvEffect = Some sys /\
  Lifecycle.step Example.noCanvas sys (Lifecycle.EvWheel Example.wheelOut) = None /\
  Lifecycle.trace
    (Example.after Example.noCanvas [Lifecycle.EvNgOnInit; Lifecycle.EvNgOnDestroy])
  = Lifecycle.trace sys.
Proof.
  cbn zeta.
  assert (Lifecycle.reachable Example.noCanvas Example.world
            (Example.after Example.noCanvas [Lifecycle.EvNgOnInit])) as Hr.
  { apply after_reachable. vm_compute. eexists. reflexivity. }
  assert (Lifecycle.early
            (Lifecycle.phase (Example.after Example.noCanvas [Lifecycle.EvNgOnInit]))
          = true) as Hearly by (vm_compute; reflexivity).
  assert (Lifecycle.destroyed
            (Example.after Example.noCanvas [Lifecycle.EvNgOnInit]) = false)
    as Hd by (vm_compute; reflexivity).
  do 3 (split; [done|]).
  destruct (idle_before_initPixi Example.noCanvas Example.world _ Hr Hearly Hd)
    as (Heffect & Hwheel & Hdestroy).
  split; [exact Heffect|]. split; [apply Hwheel|].
  vm_compute. reflexivity.
Defined.

Lemma rejected_reachable :
  Lifecycle.reachable NoSurface.helpers Example.world NoSurface.rejected.
Proof. apply after_reachable. vm_compute. eexists. reflexivity. Qed.

(** Without a rendering surface the example component stays as
    constructed through an effect run, a change of the game state and
    the teardown: [initializePixiApp] with 800 by 600 is its only call. *)
Lemma rejected_for_good_witness :
  let events := [Lifecycle.EvEffect;
                 Lifecycle.EvGamestate
                   (GameState.mk (WorldSize.mk 100 80) (CameraState.mk 4 2));
                 Lifecycle.EvEffect; Lifecycle.EvNgOnDestroy] in
  let sys' := Example.after NoSurface.helpers
                ([Lifecycle.EvNgOnInit; Lifecycle.EvResume] ++ events) in
  Lifecycle.reachable NoSurface.helpers Example.world NoSurface.rejected /\
  Lifecycle.phase NoSurface.rejected = Lifecycle.Rejected /\
  Lifecycle.run NoSurface.helpers NoSurface.rejected events = Some sys' /\
  Lifecycle.component sys' = GameMapPixiComponent.initial /\
  Lifecycle.trace sys' = [ActInitializePixiApp (Some 800%Q) (Some 600%Q)].
Proof.
  cbn zeta.
  assert (Lifecycle.phase NoSurface.rejected = Lifecycle.Rejected) as Hp
    by (vm_compute; reflexivity).
  split; [exact rejected_reachable|]. split; [exact Hp|].
  match goal with |- ?run = Some ?sys' /\ _ =>
    assert (run = Some sys') as Hrun by (vm_compute; reflexivity)
  end.
  split; [exact Hrun|].
  destruct (rejected_for_good NoSurface.helpers Example.world _ _ _
              rejected_reachable Hp Hrun) as (_ & Hc & Htr & _).
  split; [exact Hc|]. rewrite Htr. vm_compute. reflexivity.
Defined.


(** The mounted example draws with the two loaded texture maps and no
    indicator textures, as [createClaimIndicatorTextures] threw. *)
Lemma textures_by_phase_witness :
  Lifecycle.reachable Example.noCanvas Example.world Example.mounted /\
  Census.textureFields (Lifecycle.component Example.mounted)
  = ({["grass" := 3]}, {["tree" := 4]}, None, None).
Proof.
  split; [exact mounted_reachable|].
  rewrite (proj1 (textures_by_phase Example.noCanvas Example.world _
                    mounted_reachable)).
  vm_compute. reflexivity.
Defined.

(** The calls of the example component mounted and torn down. *)
Lemma calls_census_witness :
  let sys := Example.after Example.noCanvas
               (Example.mount ++ [Lifecycle.EvEffect; Lifecycle.EvNgOnDestroy]) in
  Lifecycle.reachable Example.noCanvas Example.world sys /\
  Census.Late sys.
Proof.
  cbn zeta.
  assert (Lifecycle.reachable Example.noCanvas Example.world
            (Example.after Example.noCanvas
               (Example.mount
                ++ [Lifecycle.EvEffect; Lifecycle.EvNgOnDestroy]))) as Hr.
  { apply after_reachable. vm_compute. eexists. reflexivity. }
  split; [exact Hr|].
  exact (calls_census Example.noCanvas Example.world _ Hr).
Defined.

